(** * The DQN agent of [src/dqn_agent.py]

    A shallow embedding of the class [DQNAgent]: its episode loop, the
    epsilon-greedy action selection, the minibatch target computation and
    the target-network synchronisation, followed by the properties the
    specification states about them.

    Numbers (rewards, q-values, probabilities, the discount) are exact
    rationals [Q]; Python's numeric equality is [Qeq], written [==].
    The gym environment, the TensorFlow network and session, the random
    module and the modules [frame_buffer], [replay_memory], [stats] and
    [utils] are collaborators of the agent: each is an interface (a type
    class), and every call the agent makes on one of them is recorded,
    in order, in a trace. *)

From Stdlib Require Import QArith.
From stdpp Require Import gmap strings list.
Close Scope Q_scope.

(** ** Numbers *)

(** [x < y] on rationals, as a boolean. *)
Definition Qltb (x y : Q) : bool := negb (Qle_bool y x).

(** The larger of two numbers; the first one on a tie. *)
Definition Qmax2 (a b : Q) : Q := if Qltb a b then b else a.

(** ** Exceptions *)

Inductive PyError : Set :=
| AssertionError
| AttributeError
| TypeError
| ValueError
| ZeroDivisionError.

Inductive Result (A : Type) : Type :=
| Ok (a : A)
| Raise (e : PyError).
Arguments Ok {A} a.
Arguments Raise {A} e.

(** ** Data *)

(** Actions are indices into the discrete action space. *)
Definition Action : Set := nat.

(** The tuple [(state, action, reward, next_state, done)] handed to
    [replay_memory.add] and unpacked in [_get_minibatch_feed_dict]. *)
Record Transition (S : Type) : Type := mkTransition {
  tr_state : S;
  tr_action : Action;
  tr_reward : Q;
  tr_next_state : S;
  tr_done : bool;
}.
Arguments mkTransition {S} _ _ _ _ _.
Arguments tr_state {S} _.
Arguments tr_action {S} _.
Arguments tr_reward {S} _.
Arguments tr_next_state {S} _.
Arguments tr_done {S} _.

(** The feed dict of [train_op], one field per placeholder. *)
Record FeedDict (S : Type) : Type := mkFeedDict {
  x_placeholder : list S;
  q_placeholder : list Q;
  action_placeholder : list (list Q);
}.
Arguments mkFeedDict {S} _ _ _.
Arguments x_placeholder {S} _.
Arguments q_placeholder {S} _.
Arguments action_placeholder {S} _.

(** The options the agent reads from [config]. *)
Record Config : Type := mkConfig {
  frames_per_state : nat;
  minibatch_size : nat;
  init_random_action_prob : Q;
  min_random_action_prob : Q;
  random_action_prob_decay : Q;
  reward_discount : Q;
  target_update_freq : Z;
  resize_width : nat;
  resize_height : nat;
}.

(** ** Class-level tables of [DQNAgent] *)

(** Environments for which the state frames need to be resized. *)
Definition RESIZE_STATE_FRAMES : list string := ["Pong-v0"%string].

(** Reward penalty on failure for each environment. *)
Definition FAILURE_PENALTY : gmap string Q :=
  {[ "CartPole-v0"%string := (-100)%Q ]}.

(** ** Collaborators *)

(** The gym environment: [env.spec.id], [env.action_space.n],
    [env.reset()], [env.step(action)] (the info component is dropped, as
    the agent drops it) and [env.action_space.sample()]. *)
Class Environment : Type := {
  Obs : Type;
  EnvSt : Type;
  env_spec_id : string;
  action_space_n : nat;
  env_reset : EnvSt → Obs * EnvSt;
  env_step : EnvSt → Action → (Obs * Q * bool) * EnvSt;
  action_space_sample : EnvSt → Action * EnvSt;
}.

(** [frame_buffer.FrameBuffer]: the constructor with its two keyword
    arguments, [append] and [get_state]. *)
Class FrameBuffer (O : Type) : Type := {
  State : Type;
  FB : Type;
  fb_new : nat → (O → O) → FB;
  fb_append : FB → O → FB;
  fb_get_state : FB → State;
}.

(** The network as seen through [session.run]: the parameter values the
    session holds, forward propagation of [q_output] under given
    parameter values, and one optimiser step of [train_op]. *)
Class Network (S : Type) : Type := {
  Params : Type;
  q_output : Params → list S → list (list Q);
  train_op : Params → FeedDict S → Params;
}.

(** The module [random]: [random.random()]. *)
Class Randomness : Type := {
  Rng : Type;
  random_random : Rng → Q * Rng;
}.

(** [replay_memory.ReplayMemory]: [add], [size] and [get_minibatch],
    which returns the non-terminal and the terminal part of the sample. *)
Class ReplayMemory (S : Type) : Type := {
  Replay : Type;
  rm_add : Replay → Transition S → Replay;
  rm_size : Replay → nat;
  rm_get_minibatch : Replay → nat →
                     (list (Transition S) * list (Transition S)) * Replay;
}.

(** Modelled from the spec: the static helper
    [ReplayMemory.get_next_states] of [replay_memory.py], which is not
    part of the sources at hand. It "extracts the next_state field from a
    sequence of non-terminal transitions, preserving order". *)
Definition get_next_states {S : Type} (items : list (Transition S)) : list S :=
  map tr_next_state items.

(** The module [utils]: [decay], [one_hot] and [resize_image]. *)
Class Utils (O : Type) : Type := {
  decay : Q → Q → Q → Q;            (* val, min_val, decay_rate *)
  one_hot : Action → nat → list Q;
  resize_image : O → nat → nat → O; (* frame, width, height *)
}.

(** ** numpy reductions used by the agent *)

(** [row.max()]: numpy raises on an empty reduction. *)
Definition row_max (row : list Q) : Result Q :=
  match row with
  | [] => Raise ValueError
  | x :: r => Ok (fold_left Qmax2 r x)
  end.

(** [q_values.max(axis=1)]. *)
Fixpoint max_axis1 (rows : list (list Q)) : Result (list Q) :=
  match rows with
  | [] => Ok []
  | row :: rest =>
      match row_max row with
      | Raise e => Raise e
      | Ok m =>
          match max_axis1 rest with
          | Raise e => Raise e
          | Ok ms => Ok (m :: ms)
          end
      end
  end.

Fixpoint argmax_from (best : Q) (best_i i : nat) (l : list Q) : nat :=
  match l with
  | [] => best_i
  | x :: r =>
      if Qltb best x then argmax_from x i (S i) r
      else argmax_from best best_i (S i) r
  end.

(** [q_values.argmax()]: the index, in the flattened array, of the first
    occurrence of the maximum; numpy raises on an empty array. *)
Definition argmax (rows : list (list Q)) : Result nat :=
  match concat rows with
  | [] => Raise ValueError
  | x :: r => Ok (argmax_from x 0 1 r)
  end.

(** [zip_longest(l1, l2, fillvalue=...)]: [None] stands for the fill
    value on the side that ran out. *)
Fixpoint zip_longest {A B : Type} (l1 : list A) (l2 : list B)
  : list (option A * option B) :=
  match l1, l2 with
  | [], _ => map (λ b, (None, Some b)) l2
  | _, [] => map (λ a, (Some a, None)) l1
  | a :: l1', b :: l2' => (Some a, Some b) :: zip_longest l1' l2'
  end.

(** ** The agent *)

Section Agent.
Context {E : Environment} {F : FrameBuffer Obs} {N : Network State}
        {G : Randomness} {RM : ReplayMemory State} {U : Utils Obs}.

(** [self.config]; the agent never assigns it again. *)
Variable config : Config.

(** Calls on the collaborators, each with what it was given and, where
    the agent uses it, what it returned. *)
Inductive Event : Type :=
| EnvReset (observation : Obs)
| EnvStep (action : Action) (observation : Obs) (reward : Q) (done : bool)
| ActionSample (action : Action)
| RandomRandom (r : Q)
| FrameAppend (observation : Obs)
| FrameGetState (state : State)
| ReplayAdd (item : Transition State)
| ReplaySize (size : nat)
| ReplayGetMinibatch (n : nat) (non_terminal terminal : list (Transition State))
| RunQOutput (states : list State) (use_target_network : bool)
| RunTrainOp (feed_dict : FeedDict State)
| RunParams
| LogEpisode (reward : Q) (steps : nat)
| ShouldStop (stop : bool).

(** The attributes of a [DQNAgent] together with the state of the
    objects it holds: [env], the parameter values inside [session],
    [replay_memory], [frame_buffer] and the generator of [random].
    [target_params] is [None] until [_update_target_network] first
    assigns the attribute. *)
Record Agent : Type := mkAgent {
  env : EnvSt;
  session : Params;
  replay_memory : Replay;
  total_steps : nat;
  random_action_prob : Q;
  frame_buffer : FB;
  target_params : option Params;
  random_state : Rng;
  trace : list Event;
}.

Definition set_env (v : EnvSt) (a : Agent) : Agent :=
  mkAgent v (session a) (replay_memory a) (total_steps a)
          (random_action_prob a) (frame_buffer a) (target_params a)
          (random_state a) (trace a).
Definition set_session (v : Params) (a : Agent) : Agent :=
  mkAgent (env a) v (replay_memory a) (total_steps a)
          (random_action_prob a) (frame_buffer a) (target_params a)
          (random_state a) (trace a).
Definition set_replay_memory (v : Replay) (a : Agent) : Agent :=
  mkAgent (env a) (session a) v (total_steps a)
          (random_action_prob a) (frame_buffer a) (target_params a)
          (random_state a) (trace a).
Definition set_total_steps (v : nat) (a : Agent) : Agent :=
  mkAgent (env a) (session a) (replay_memory a) v
          (random_action_prob a) (frame_buffer a) (target_params a)
          (random_state a) (trace a).
Definition set_random_action_prob (v : Q) (a : Agent) : Agent :=
  mkAgent (env a) (session a) (replay_memory a) (total_steps a)
          v (frame_buffer a) (target_params a)
          (random_state a) (trace a).
Definition set_frame_buffer (v : FB) (a : Agent) : Agent :=
  mkAgent (env a) (session a) (replay_memory a) (total_steps a)
          (random_action_prob a) v (target_params a)
          (random_state a) (trace a).
Definition set_target_params (v : option Params) (a : Agent) : Agent :=
  mkAgent (env a) (session a) (replay_memory a) (total_steps a)
          (random_action_prob a) (frame_buffer a) v
          (random_state a) (trace a).
Definition set_random_state (v : Rng) (a : Agent) : Agent :=
  mkAgent (env a) (session a) (replay_memory a) (total_steps a)
          (random_action_prob a) (frame_buffer a) (target_params a)
          v (trace a).
Definition log (ev : Event) (a : Agent) : Agent :=
  mkAgent (env a) (session a) (replay_memory a) (total_steps a)
          (random_action_prob a) (frame_buffer a) (target_params a)
          (random_state a) (trace a ++ [ev]).

(** *** Methods as state transformers

    A method takes the agent and gives back its result, or the
    exception it raised, with the agent as the method left it: what
    was assigned before an exception stays assigned. *)
Definition M (A : Type) : Type := Agent → Result A * Agent.

Definition ret {A : Type} (x : A) : M A := λ a, (Ok x, a).

Definition bind {A B : Type} (m : M A) (k : A → M B) : M B :=
  λ a, match m a with
       | (Ok x, a') => k x a'
       | (Raise e, a') => (Raise e, a')
       end.

Definition raise {A : Type} (e : PyError) : M A := λ a, (Raise e, a).

Definition lift {A : Type} (r : Result A) : M A := λ a, (r, a).

Definition gets {A : Type} (f : Agent → A) : M A := λ a, (Ok (f a), a).

Definition modify (f : Agent → Agent) : M unit := λ a, (Ok tt, f a).

Notation "'let*' x ':=' m 'in' k" := (bind m (λ x, k))
  (at level 10, x pattern, m at level 100, k at level 200).
Notation "m ';;' k" := (bind m (λ _, k))
  (at level 100, k at level 200, right associativity).

(** *** Calls on the collaborators *)

Definition call_env_reset : M Obs := λ a,
  let '(o, e') := env_reset (env a) in
  (Ok o, log (EnvReset o) (set_env e' a)).

Definition call_env_step (action : Action) : M (Obs * Q * bool) := λ a,
  let '((o, r, d), e') := env_step (env a) action in
  (Ok (o, r, d), log (EnvStep action o r d) (set_env e' a)).

Definition call_action_space_sample : M Action := λ a,
  let '(x, e') := action_space_sample (env a) in
  (Ok x, log (ActionSample x) (set_env e' a)).

Definition call_random_random : M Q := λ a,
  let '(r, g') := random_random (random_state a) in
  (Ok r, log (RandomRandom r) (set_random_state g' a)).

Definition call_frame_append (o : Obs) : M unit := λ a,
  (Ok tt, log (FrameAppend o)
              (set_frame_buffer (fb_append (frame_buffer a) o) a)).

Definition call_frame_get_state : M State := λ a,
  let s := fb_get_state (frame_buffer a) in
  (Ok s, log (FrameGetState s) a).

Definition call_replay_add (item : Transition State) : M unit := λ a,
  (Ok tt, log (ReplayAdd item)
              (set_replay_memory (rm_add (replay_memory a) item) a)).

Definition call_replay_size : M nat := λ a,
  let n := rm_size (replay_memory a) in
  (Ok n, log (ReplaySize n) a).

Definition call_replay_get_minibatch (n : nat)
  : M (list (Transition State) * list (Transition State)) := λ a,
  let '((nt, t), rm') := rm_get_minibatch (replay_memory a) n in
  (Ok (nt, t), log (ReplayGetMinibatch n nt t) (set_replay_memory rm' a)).

(** [session.run(self.network.q_output, feed_dict)]: forward
    propagation under the session's own parameter values, or under
    [fed] when the feed dict overrides [network.params]. The session is
    taken as one that accepts every list of states it is fed, the empty
    one included, which is what the spec asks of the value estimator;
    the trace records the list that was fed, so that what a stricter
    session is handed can be read off it. *)
Definition run_q_output (states : list State) (fed : option Params)
  : M (list (list Q)) := λ a,
  let p := default (session a) fed in
  (Ok (q_output p states), log (RunQOutput states (bool_decide (is_Some fed))) a).

(** [session.run(self.network.train_op, feed_dict)]. *)
Definition run_train_op (feed_dict : FeedDict State) : M unit := λ a,
  (Ok tt, log (RunTrainOp feed_dict)
              (set_session (train_op (session a) feed_dict) a)).

(** [session.run(self.network.params)]. *)
Definition run_params : M Params := λ a,
  (Ok (session a), log RunParams a).

Definition call_log_episode (reward : Q) (steps : nat) : M unit := λ a,
  (Ok tt, log (LogEpisode reward steps) a).

Definition call_should_stop (answer : bool) : M bool := λ a,
  (Ok answer, log (ShouldStop answer) a).

(** *** The methods of [DQNAgent] *)

(** [_get_frame_resizer]. *)
Definition _get_frame_resizer : Obs → Obs :=
  if negb (bool_decide (env_spec_id ∈ RESIZE_STATE_FRAMES)) then λ x, x
  else λ x, resize_image x (resize_width config) (resize_height config).

(** [_update_target_network]. *)
Definition _update_target_network : M unit :=
  let* p := run_params in
  modify (set_target_params (Some p)).

(** [__init__]; the arguments are the states of the objects handed to
    the constructor, and of [random] at that moment. *)
Definition __init__ (env0 : EnvSt) (session0 : Params) (replay0 : Replay)
  (random0 : Rng) : Agent :=
  snd (_update_target_network
         {| env := env0;
            session := session0;
            replay_memory := replay0;
            total_steps := 0;
            random_action_prob := init_random_action_prob config;
            frame_buffer := fb_new (frames_per_state config) _get_frame_resizer;
            target_params := None;
            random_state := random0;
            trace := [] |}).

(** [_predict_q_values]. *)
Definition _predict_q_values (states : list State) (use_target_network : bool)
  : M (list (list Q)) :=
  if use_target_network then
    let* tp := gets target_params in
    match tp with
    | None => raise AttributeError
    | Some p => run_q_output states (Some p)
    end
  else run_q_output states None.

(** [_decay_random_action_prob]. *)
Definition _decay_random_action_prob : M unit :=
  modify (λ a, set_random_action_prob
                 (decay (random_action_prob a)
                        (min_random_action_prob config)
                        (random_action_prob_decay config)) a).

(** [_roll_random_action_dice]. *)
Definition _roll_random_action_dice : M bool :=
  _decay_random_action_prob ;;
  let* r := call_random_random in
  let* p := gets random_action_prob in
  ret (Qltb r p).

(** [_pick_action]. *)
Definition _pick_action (state : State) : M Action :=
  let* dice := _roll_random_action_dice in
  if dice then call_action_space_sample
  else
    let* q_values := _predict_q_values [state] false in
    lift (argmax q_values).

(** The body of the [for] loop of [_get_minibatch_feed_dict]: [item] is
    unpacked, which fails on the fill value, and the three lists grow by
    one entry each. *)
Definition feed_dict_step (acc : FeedDict State)
  (entry : option (Transition State) * option Q) : Result (FeedDict State) :=
  let target_q := default 0%Q entry.2 in
  match entry.1 with
  | None => Raise TypeError
  | Some item =>
      Ok {| x_placeholder := x_placeholder acc ++ [tr_state item];
            q_placeholder :=
              q_placeholder acc ++
              [(tr_reward item + reward_discount config * target_q)%Q];
            action_placeholder :=
              action_placeholder acc ++
              [one_hot (tr_action item) action_space_n] |}
  end.

Fixpoint feed_dict_loop (acc : FeedDict State)
  (pairs : list (option (Transition State) * option Q))
  : Result (FeedDict State) :=
  match pairs with
  | [] => Ok acc
  | entry :: rest =>
      match feed_dict_step acc entry with
      | Raise e => Raise e
      | Ok acc' => feed_dict_loop acc' rest
      end
  end.

(** [_get_minibatch_feed_dict]. *)
Definition _get_minibatch_feed_dict (target_q_values : list Q)
  (non_terminal_minibatch terminal_minibatch : list (Transition State))
  : Result (FeedDict State) :=
  if bool_decide (length target_q_values = length non_terminal_minibatch) then
    let minibatch := non_terminal_minibatch ++ terminal_minibatch in
    feed_dict_loop (mkFeedDict [] [] []) (zip_longest minibatch target_q_values)
  else Raise AssertionError.

(** [_train_minibatch]. *)
Definition _train_minibatch (minibatch_size : nat) : M unit :=
  let* size := call_replay_size in
  if size <? minibatch_size then ret tt
  else
    let* (non_terminal_minibatch, terminal_minibatch) :=
      call_replay_get_minibatch minibatch_size in
    let next_states := get_next_states non_terminal_minibatch in
    let* q_values := _predict_q_values next_states true in
    let* max_q_values := lift (max_axis1 q_values) in
    let* feed_dict :=
      lift (_get_minibatch_feed_dict max_q_values
              non_terminal_minibatch terminal_minibatch) in
    run_train_op feed_dict.

(** The [while] loop of [train_episode]. [fuel] is [max_steps - steps]:
    the loop is entered with [done] false and goes on while [steps] is
    below [max_steps] and the last step did not report [done]. *)
Fixpoint episode_loop (fuel : nat) (state : State) (total_reward : Q)
  (steps : nat) : M (Q * nat) :=
  match fuel with
  | 0 => ret (total_reward, steps)
  | S fuel' =>
      let* action := _pick_action state in
      let* (observation, reward, done) := call_env_step action in
      let total_reward := (total_reward + reward)%Q in
      let reward :=
        if done : bool then default reward (FAILURE_PENALTY !! env_spec_id)
        else reward in
      call_frame_append observation ;;
      let* next_state := call_frame_get_state in
      call_replay_add (mkTransition state action reward next_state done) ;;
      _train_minibatch (minibatch_size config) ;;
      modify (λ a, set_total_steps (S (total_steps a)) a) ;;
      if done then ret (total_reward, S steps)
      else episode_loop fuel' next_state total_reward (S steps)
  end.

(** [train_episode]. *)
Definition train_episode (max_steps : nat) : M (Q * nat) :=
  let* observation := call_env_reset in
  call_frame_append observation ;;
  let* state := call_frame_get_state in
  episode_loop max_steps state 0%Q 0.

(** The [for] loop of [train]. [supervisor], when given, answers
    [should_stop()] for the episode that just ended. The two calls that
    only serve the log line, [stats.last_100_mean_reward()] and
    [logging.info], are left out. *)
Fixpoint train_loop (remaining episode max_steps_per_episode : nat)
  (supervisor : option (nat → bool)) : M unit :=
  match remaining with
  | 0 => ret tt
  | S remaining' =>
      let* (reward, steps) := train_episode max_steps_per_episode in
      call_log_episode reward steps ;;
      let* total := gets total_steps in
      let freq := target_update_freq config in
      if bool_decide (freq = 0%Z) then raise ZeroDivisionError
      else
        (if bool_decide ((Z.of_nat total `mod` freq)%Z = 0%Z)
         then _update_target_network else ret tt) ;;
        let* stop :=
          match supervisor with
          | None => ret false
          | Some should_stop => call_should_stop (should_stop episode)
          end in
        if stop then ret tt
        else train_loop remaining' (S episode) max_steps_per_episode supervisor
  end.

(** [train]. The class method [get_input_shape], which no method of the
    agent calls, is left out. *)
Definition train (num_episodes max_steps_per_episode : nat)
  (supervisor : option (nat → bool)) : M unit :=
  train_loop num_episodes 0 max_steps_per_episode supervisor.

End Agent.

(** ** Reading a trace *)

Section Observations.
Context {E : Environment} {F : FrameBuffer Obs} {N : Network State}
        {G : Randomness} {RM : ReplayMemory State} {U : Utils Obs}.
Variable config : Config.

(** The reward and the [done] flag the environment returned at each
    step, in order. *)
Definition env_steps (evs : list Event) : list (Q * bool) :=
  omap (λ ev, match ev with EnvStep _ _ r d => Some (r, d) | _ => None end) evs.

(** The rewards the environment returned, in order. *)
Definition raw_rewards (evs : list Event) : list Q := (env_steps evs).*1.

(** The observations the environment returned on reset, in order. *)
Definition reset_observations (evs : list Event) : list Obs :=
  omap (λ ev, match ev with EnvReset o => Some o | _ => None end) evs.

(** The states the frame buffer exposed, in order. *)
Definition exposed_states (evs : list Event) : list State :=
  omap (λ ev, match ev with FrameGetState s => Some s | _ => None end) evs.

(** The rewards of the transitions handed to the replay memory, in order. *)
Definition stored_rewards (evs : list Event) : list Q :=
  omap (λ ev, match ev with ReplayAdd item => Some (tr_reward item) | _ => None end) evs.

(** The number of target-network synchronisations. *)
Definition sync_count (evs : list Event) : nat :=
  length (omap (λ ev, match ev with RunParams => Some tt | _ => None end) evs).

(** The number of environment steps. *)
Definition step_count (evs : list Event) : nat :=
  length (raw_rewards evs).

(** The feed dicts of the gradient-update calls, in order. *)
Definition train_op_feeds (evs : list Event) : list (FeedDict State) :=
  omap (λ ev, match ev with RunTrainOp fd => Some fd | _ => None end) evs.

(** The sum of a list of rewards, added up from [0] as [train_episode]
    adds them. *)
Definition sum_rewards (rs : list Q) : Q := fold_left Qplus rs 0%Q.

(** The expected value [_get_minibatch_feed_dict] computes for an item
    and the target it is paired with. *)
Definition expected_q (item : Transition State) (target_q : Q) : Q :=
  (tr_reward item + reward_discount config * target_q)%Q.

(** The events a method adds to the trace satisfy [P], whatever the
    agent it is called on and whether it returns or raises. *)
Definition emits {A : Type} (P : list Event → Prop) (m : M A) : Prop :=
  ∀ a, ∃ evs, trace (snd (m a)) = trace a ++ evs ∧ P evs.

(** Events among which there is neither an environment step nor an
    addition to the replay memory. *)
Definition silent (evs : list Event) : Prop :=
  env_steps evs = [] ∧ stored_rewards evs = [].

(** The reward [train_episode] stores for a step on which the
    environment returned [reward] and [done]. *)
Definition overridden (step : Q * bool) : Q :=
  if step.2 then default step.1 (FAILURE_PENALTY !! env_spec_id) else step.1.

(** The contract of forward propagation: [q_output] has shape
    [[batch, num_actions]], one row per state and one entry per action. *)
Definition batch_shaped : Prop :=
  ∀ (p : Params) (states : list State),
    length (q_output p states) = length states ∧
    Forall (λ row, length row = action_space_n) (q_output p states).

(** The exploration probability after each of a series of calls of
    [_pick_action], one for each of [states], in order and whatever each
    call returned. *)
Fixpoint prob_trajectory (states : list State) (a : Agent) : list Q :=
  match states with
  | [] => []
  | s :: rest =>
      let a' := snd (_pick_action config s a) in
      random_action_prob a' :: prob_trajectory rest a'
  end.

(** The transitions handed to the replay memory, in order. *)
Definition stored_items (evs : list Event) : list (Transition State) :=
  omap (λ ev, match ev with ReplayAdd item => Some item | _ => None end) evs.

(** The episodes handed to [stats.log_episode], in order. *)
Definition logged_episodes (evs : list Event) : list (Q * nat) :=
  omap (λ ev, match ev with LogEpisode r n => Some (r, n) | _ => None end) evs.

(** Transitions that follow one another from the state [s]: each starts
    in the state the one before it ended in. *)
Fixpoint chained (s : State) (items : list (Transition State)) : Prop :=
  match items with
  | [] => True
  | item :: rest => tr_state item = s ∧ chained (tr_next_state item) rest
  end.

(** The observations the environment returned, on reset and on each
    step, in order. *)
Definition observations (evs : list Event) : list Obs :=
  omap (λ ev, match ev with
              | EnvReset o => Some o
              | EnvStep _ o _ _ => Some o
              | _ => None
              end) evs.

(** The calls made between the reset of an episode and its end: every
    call but [env.reset], the synchronisation of the target network,
    [stats.log_episode] and [supervisor.should_stop]. *)
Definition within_episode (ev : Event) : bool :=
  match ev with
  | EnvReset _ | RunParams | LogEpisode _ _ | ShouldStop _ => false
  | _ => true
  end.

(** Events of action selection or of a minibatch: no step of the
    environment, nothing stored, and only calls made within an episode. *)
Definition quiet (evs : list Event) : Prop :=
  env_steps evs = [] ∧ stored_items evs = [] ∧
  Forall (λ ev, within_episode ev = true) evs.

(** One application of [utils.decay] under the configured floor and
    rate, as [_decay_random_action_prob] applies it. *)
Definition decay_step (p : Q) : Q :=
  decay p (min_random_action_prob config) (random_action_prob_decay config).

(** [get_input_shape]. The shape of the environment's observation space,
    [env.observation_space.shape], is handed in. *)
Definition get_input_shape (observation_space_shape : list nat) : list nat :=
  if negb (bool_decide (env_spec_id ∈ RESIZE_STATE_FRAMES))
  then observation_space_shape
  else [resize_width config; resize_height config; frames_per_state config].

(** The calls on the environment that a trace records are a run of the
    environment from [e] to [e']: each of them returned what the
    environment, in the state the calls before had left it in, returns. *)
Fixpoint env_run (e : EnvSt) (evs : list Event) (e' : EnvSt) : Prop :=
  match evs with
  | [] => e' = e
  | EnvReset o :: rest =>
      (env_reset e).1 = o ∧ env_run (env_reset e).2 rest e'
  | EnvStep action o r d :: rest =>
      (env_step e action).1 = (o, r, d) ∧
      env_run (env_step e action).2 rest e'
  | ActionSample action :: rest =>
      (action_space_sample e).1 = action ∧
      env_run (action_space_sample e).2 rest e'
  | _ :: rest => env_run e rest e'
  end.

(** What the spec says of an episode that ends on a penalised step: the
    reward reported for the episode and the reward stored in the
    transition of that step differ. *)
Definition reported_differs_from_stored (max_steps : nat) (a : Agent)
  : Prop :=
  let run := train_episode config max_steps a in
  let evs := drop (length (trace a)) (trace (snd run)) in
  ∀ (total : Q) (steps : nat) (raw stored penalty : Q),
    fst run = Ok (total, steps) →
    FAILURE_PENALTY !! env_spec_id = Some penalty →
    last (env_steps evs) = Some (raw, true) →
    last (stored_rewards evs) = Some stored →
    ¬ (total == stored)%Q.

(** What the spec says of the exploration probability over a series of
    calls of [_pick_action] on [states]: it never rises and is never
    below the floor. *)
Definition never_rises_nor_below_floor (states : list State) (a : Agent)
  : Prop :=
  let probs := random_action_prob a :: prob_trajectory states a in
  (∀ (i : nat) (p q : Q),
     probs !! i = Some p → probs !! S i = Some q → (q <= p)%Q) ∧
  Forall (λ p, (min_random_action_prob config <= p)%Q) probs.

End Observations.

(** ** The modules that are not among the sources, from the spec *)

(** Modelled from the spec: [utils.decay] of [utils.py], which is not
    part of the sources at hand. The spec gives the decay law as
    [p_new = max(min_val, p - decay_rate)]; Python's [max] keeps its
    first argument unless the second is larger. *)
Definition spec_decay (val min_val decay_rate : Q) : Q :=
  Qmax2 min_val (val - decay_rate)%Q.

(** Modelled from the spec: [utils.one_hot] of [utils.py], which is not
    part of the sources at hand. "Actions are encoded as one-hot vectors
    over the fixed discrete action space size." *)
Definition spec_one_hot (action : Action) (n : nat) : list Q :=
  map (λ i, if i =? action then 1%Q else 0%Q) (seq 0 n).

(** [utils] with the two functions above; the spec leaves resizing to
    the caller. *)
Definition spec_utils {O : Type} (resize : O → nat → nat → O) : Utils O :=
  {| decay := spec_decay; one_hot := spec_one_hot; resize_image := resize |}.

(** Modelled from the spec: the class [FrameBuffer] of
    [frame_buffer.py], which is not part of the sources at hand.
    "[append(observation)] pushes a (possibly preprocessed) observation
    into a fixed-capacity rolling window, discarding the oldest when
    full. [get_state()] returns the current window as a composite
    state." The spec leaves [get_state] on a window that is not yet full
    undefined; here it returns the frames held so far. Frames are kept
    oldest first. *)
Record Window (O : Type) : Type := mkWindow {
  capacity : nat;
  preprocessor : O → O;
  frames : list O;
}.
Arguments mkWindow {O} _ _ _.
Arguments capacity {O} _.
Arguments preprocessor {O} _.
Arguments frames {O} _.

Definition window_append {O : Type} (w : Window O) (observation : O)
  : Window O :=
  let pushed := frames w ++ [preprocessor w observation] in
  mkWindow (capacity w) (preprocessor w)
           (drop (length pushed - capacity w) pushed).

Definition spec_frame_buffer (O : Type) : FrameBuffer O :=
  {| State := list O;
     FB := Window O;
     fb_new := λ n f, mkWindow n f [];
     fb_append := window_append;
     fb_get_state := frames |}.

(** ** A small instance

    A concrete environment, network, random source and replay memory on
    which the agent can be run. *)

(** An environment whose observations are the readings of a clock that
    ticks at every reset and every step, whose reward is always [1], and
    which reports [done] on the [horizon]-th step after a reset (never
    when [horizon] is [0]). The state is the clock and the number of steps
    since the last reset. *)
Definition clock_env (id : string) (horizon : nat) : Environment :=
  {| Obs := nat;
     EnvSt := nat * nat;
     env_spec_id := id;
     action_space_n := 2;
     env_reset := λ st, (st.1, (S st.1, 0));
     env_step := λ st _, ((st.1, 1%Q, S st.2 =? horizon), (S st.1, S st.2));
     action_space_sample := λ st, (st.1 `mod` 2, st) |}.

(** A network with two actions whose parameters are the number of
    optimiser steps taken so far. *)
Definition counting_network (St : Type) : Network St :=
  {| Params := nat;
     q_output := λ p states, map (λ _, [inject_Z (Z.of_nat p); 1%Q]) states;
     train_op := λ p _, S p |}.

(** A random source that returns [0] and [1] in turn. *)
Definition alternating_random : Randomness :=
  {| Rng := nat;
     random_random := λ g, (if Nat.even g then 0%Q else 1%Q, S g) |}.

(** A replay memory without a capacity bound whose sample is the [n]
    transitions added last, split by their [done] flag. *)
Definition recent_replay (St : Type) : ReplayMemory St :=
  {| Replay := list (Transition St);
     rm_add := λ rm item, rm ++ [item];
     rm_size := length;
     rm_get_minibatch := λ rm n,
       let sample := take n (reverse rm) in
       ((List.filter (λ item, negb (tr_done item)) sample,
         List.filter tr_done sample), rm) |}.

(** A configuration with a minibatch of [2] and the target network
    updated every [10] steps. *)
Definition small_config (frames : nat) : Config :=
  {| frames_per_state := frames;
     minibatch_size := 2;
     init_random_action_prob := 1%Q;
     min_random_action_prob := (1 # 10)%Q;
     random_action_prob_decay := (1 # 100)%Q;
     reward_discount := (9 # 10)%Q;
     target_update_freq := 10%Z;
     resize_width := 84;
     resize_height := 84 |}.

(** The instance on which the statements below are tried: the clock
    environment under the id of CartPole with episodes of three steps,
    and under another id with episodes that never end, both with the
    rolling window of the spec as frame buffer. *)
Definition cartpole : Environment := clock_env "CartPole-v0" 3.
Definition endless : Environment := clock_env "Acrobot-v1" 0.

Definition cartpole_frames : FrameBuffer (@Obs cartpole) :=
  spec_frame_buffer nat.
Definition cartpole_network : Network (@State _ cartpole_frames) :=
  counting_network (list nat).
Definition cartpole_replay : ReplayMemory (@State _ cartpole_frames) :=
  recent_replay (list nat).
Definition cartpole_utils : Utils (@Obs cartpole) :=
  spec_utils (λ frame _ _, frame).

Definition endless_frames : FrameBuffer (@Obs endless) :=
  spec_frame_buffer nat.
Definition endless_network : Network (@State _ endless_frames) :=
  counting_network (list nat).
Definition endless_replay : ReplayMemory (@State _ endless_frames) :=
  recent_replay (list nat).
Definition endless_utils : Utils (@Obs endless) :=
  spec_utils (λ frame _ _, frame).

(** The agent on each of the two, as [__init__] leaves it, with frames
    per state [2] on the first and [1] on the second. *)
Definition cartpole_agent
  : @Agent cartpole cartpole_frames cartpole_network alternating_random
           cartpole_replay :=
  @__init__ cartpole cartpole_frames cartpole_network alternating_random
        cartpole_replay cartpole_utils (small_config 2) (0, 0) 0 [] 0.

Definition endless_agent
  : @Agent endless endless_frames endless_network alternating_random
           endless_replay :=
  @__init__ endless endless_frames endless_network alternating_random
        endless_replay endless_utils (small_config 1) (0, 0) 0 [] 0.

(** The first agent after [train] ran one episode of at most three
    steps. *)
Definition cartpole_agent_1
  : @Agent cartpole cartpole_frames cartpole_network alternating_random
           cartpole_replay :=
  snd (@train cartpole cartpole_frames cartpole_network alternating_random
         cartpole_replay cartpole_utils (small_config 2) 1 3 None
         cartpole_agent).

(** The second and the third transition of that episode: the last one
    before the end, and the one that ended it. *)
Definition item_2 : Transition (@State _ cartpole_frames) :=
  mkTransition ([0; 1] : list nat) 1 1%Q ([1; 2] : list nat) false.
Definition item_3 : Transition (@State _ cartpole_frames) :=
  mkTransition ([1; 2] : list nat) 1 (-100)%Q ([2; 3] : list nat) true.

(** The first agent, fresh but on an environment two steps into an
    episode, so that the next step ends it. *)
Definition cartpole_agent_late
  : @Agent cartpole cartpole_frames cartpole_network alternating_random
           cartpole_replay :=
  set_env ((7, 2) : @EnvSt cartpole) cartpole_agent.

(** The first agent, fresh but with the random source about to return
    [1], so that the next action is the greedy one. *)
Definition cartpole_agent_greedy
  : @Agent cartpole cartpole_frames cartpole_network alternating_random
           cartpole_replay :=
  set_random_state (1 : @Rng alternating_random) cartpole_agent.

(** The small configuration with the exploration probability starting
    at [0], below the floor of [1/10]. *)
Definition low_start_config : Config :=
  {| frames_per_state := 2;
     minibatch_size := 2;
     init_random_action_prob := 0%Q;
     min_random_action_prob := (1 # 10)%Q;
     random_action_prob_decay := (1 # 100)%Q;
     reward_discount := (9 # 10)%Q;
     target_update_freq := 10%Z;
     resize_width := 84;
     resize_height := 84 |}.

(** The first agent as [__init__] leaves it under that configuration. *)
Definition low_start_agent
  : @Agent cartpole cartpole_frames cartpole_network alternating_random
           cartpole_replay :=
  @__init__ cartpole cartpole_frames cartpole_network alternating_random
        cartpole_replay cartpole_utils low_start_config (0, 0) 0 [] 0.

(** An environment under the id of CartPole whose every step ends the
    episode with a reward of [-100], the registered penalty itself. The
    state is a clock, read as the observation. *)
Definition harsh_env : Environment :=
  {| Obs := nat;
     EnvSt := nat;
     env_spec_id := "CartPole-v0";
     action_space_n := 2;
     env_reset := λ st, (st, S st);
     env_step := λ st _, ((st, (-100)%Q, true), S st);
     action_space_sample := λ st, (0, st) |}.

Definition harsh_frames : FrameBuffer (@Obs harsh_env) :=
  spec_frame_buffer nat.
Definition harsh_network : Network (@State _ harsh_frames) :=
  counting_network (list nat).
Definition harsh_replay : ReplayMemory (@State _ harsh_frames) :=
  recent_replay (list nat).
Definition harsh_utils : Utils (@Obs harsh_env) :=
  spec_utils (λ frame _ _, frame).

Definition harsh_agent
  : @Agent harsh_env harsh_frames harsh_network alternating_random
           harsh_replay :=
  @__init__ harsh_env harsh_frames harsh_network alternating_random
        harsh_replay harsh_utils (small_config 2) 0 0 [] 0.

(** The clock environment under an id without a penalty, with episodes
    of three steps, and the agent on it. *)
Definition mountain : Environment := clock_env "MountainCar-v0" 3.

Definition mountain_frames : FrameBuffer (@Obs mountain) :=
  spec_frame_buffer nat.
Definition mountain_network : Network (@State _ mountain_frames) :=
  counting_network (list nat).
Definition mountain_replay : ReplayMemory (@State _ mountain_frames) :=
  recent_replay (list nat).
Definition mountain_utils : Utils (@Obs mountain) :=
  spec_utils (λ frame _ _, frame).

Definition mountain_agent
  : @Agent mountain mountain_frames mountain_network alternating_random
           mountain_replay :=
  @__init__ mountain mountain_frames mountain_network alternating_random
        mountain_replay mountain_utils (small_config 2) (0, 0) 0 [] 0.


(** What the spec says of the start of an episode, for the rolling
    window: the first state the episode exposes holds no frame but the
    preprocessed observation of the episode's own reset. *)
Definition cleared_and_refilled {E : Environment}
  {N : Network (@State _ (spec_frame_buffer Obs))} {G : Randomness}
  {RM : ReplayMemory (@State _ (spec_frame_buffer Obs))} {U : Utils Obs}
  (config : Config) (max_steps : nat)
  (a : @Agent E (spec_frame_buffer Obs) N G RM) : Prop :=
  let evs :=
    drop (length (trace a)) (trace (snd (train_episode config max_steps a))) in
  ∀ (o : Obs) (s : list Obs),
    head (reset_observations evs) = Some o →
    head (exposed_states evs) = Some s →
    ∀ f, f ∈ s → f = _get_frame_resizer config o.

(** * Properties *)

(** ** Numbers and reductions *)

Lemma Qltb_lt (x y : Q) : Qltb x y = true ↔ (x < y)%Q.
Proof.
  unfold Qltb. rewrite negb_true_iff, <- not_true_iff_false, Qle_bool_iff.
  split; [apply Qnot_le_lt | apply Qlt_not_le].
Qed.

Lemma Qltb_ge (x y : Q) : Qltb x y = false ↔ (y <= x)%Q.
Proof.
  unfold Qltb. rewrite negb_false_iff. apply Qle_bool_iff.
Qed.

Lemma Qmax2_cases (a b : Q) :
  ((a < b)%Q ∧ Qmax2 a b = b) ∨ ((b <= a)%Q ∧ Qmax2 a b = a).
Proof.
  unfold Qmax2. destruct (Qltb a b) eqn:Hab.
  - left. split; [by apply Qltb_lt | done].
  - right. split; [by apply Qltb_ge | done].
Qed.

Lemma Qmax2_lower_l (a b : Q) : (a <= Qmax2 a b)%Q.
Proof.
  destruct (Qmax2_cases a b) as [[Hlt ->]|[Hle ->]].
  - by apply Qlt_le_weak.
  - apply Qle_refl.
Qed.

Lemma Qmax2_lower_r (a b : Q) : (b <= Qmax2 a b)%Q.
Proof.
  destruct (Qmax2_cases a b) as [[Hlt ->]|[Hle ->]]; [apply Qle_refl | done].
Qed.

(** The running maximum is an entry of the row and bounds every entry. *)
Lemma fold_max_spec (r : list Q) (x : Q) :
  fold_left Qmax2 r x ∈ x :: r ∧
  Forall (λ y, (y <= fold_left Qmax2 r x)%Q) (x :: r).
Proof.
  revert x. induction r as [|y r IH]; intros x; simpl.
  - split; [by left | constructor; [apply Qle_refl | constructor]].
  - destruct (IH (Qmax2 x y)) as [Hin Hall]. split.
    + apply elem_of_cons in Hin as [Heq | Hin].
      * rewrite Heq. destruct (Qmax2_cases x y) as [[_ ->]|[_ ->]].
        -- right. by left.
        -- by left.
      * right. by right.
    + inversion Hall as [|? ? Hm Hr]; subst.
      constructor; [|constructor]; try done.
      * eapply Qle_trans; [apply Qmax2_lower_l | exact Hm].
      * eapply Qle_trans; [apply Qmax2_lower_r | exact Hm].
Qed.

Lemma row_max_spec (row : list Q) (m : Q) :
  row_max row = Ok m → m ∈ row ∧ Forall (λ y, (y <= m)%Q) row.
Proof.
  destruct row as [|x r]; simpl; [done|].
  intros [= <-]. apply fold_max_spec.
Qed.

Lemma row_max_ok (row : list Q) :
  row ≠ [] → ∃ m, row_max row = Ok m.
Proof. destruct row; [done | eauto]. Qed.

(** [max(axis=1)] succeeds on rows that are not empty and gives the
    maximum of each row, in order. *)
Lemma max_axis1_ok (rows : list (list Q)) :
  Forall (λ row, row ≠ []) rows →
  ∃ ms, max_axis1 rows = Ok ms ∧ Forall2 (λ row m, row_max row = Ok m) rows ms.
Proof.
  induction 1 as [|row rest Hrow _ IH]; simpl.
  - exists []. split; [done | constructor].
  - destruct (row_max_ok row Hrow) as [m Hm].
    destruct IH as (ms & -> & Hms). rewrite Hm.
    exists (m :: ms). split; [done | by constructor].
Qed.

Lemma argmax_ok (rows : list (list Q)) :
  concat rows ≠ [] → ∃ i, argmax rows = Ok i.
Proof. unfold argmax. destruct (concat rows); [done | eauto]. Qed.

(** ** The feed dict *)

Lemma lookup_map {A B : Type} (f : A → B) (l : list A) (i : nat) :
  map f l !! i = f <$> (l !! i).
Proof.
  revert i. induction l as [|x l IH]; intros [|i]; simpl; done.
Qed.

Lemma zip_longest_nil_r {A B : Type} (l : list A) :
  zip_longest l (@nil B) = map (λ a, (Some a, None)) l.
Proof. by destruct l. Qed.

Section FeedDict.
Context {E : Environment} {F : FrameBuffer Obs} {U : Utils Obs}.
Variable config : Config.

(** The feed dict after the loop went through [items], each paired with
    the fill value. *)
Lemma feed_dict_loop_filled (items : list (Transition State))
  (acc : FeedDict State) :
  feed_dict_loop config acc (map (λ a, (Some a, None)) items) =
  Ok {| x_placeholder := x_placeholder acc ++ map tr_state items;
        q_placeholder :=
          q_placeholder acc ++ map (λ item, expected_q config item 0%Q) items;
        action_placeholder :=
          action_placeholder acc ++
          map (λ item, one_hot (tr_action item) action_space_n) items |}.
Proof.
  revert acc. induction items as [|item items IH]; intros acc; simpl.
  - rewrite !app_nil_r. by destruct acc.
  - rewrite IH. simpl. by rewrite <- !app_assoc.
Qed.

(** The feed dict after the whole loop, when there is one target per
    non-terminal item. *)
Lemma feed_dict_loop_aligned (nt t : list (Transition State))
  (target_q_values : list Q) (acc : FeedDict State) :
  length target_q_values = length nt →
  feed_dict_loop config acc (zip_longest (nt ++ t) target_q_values) =
  Ok {| x_placeholder := x_placeholder acc ++ map tr_state (nt ++ t);
        q_placeholder :=
          q_placeholder acc ++
          (zip_with (expected_q config) nt target_q_values ++
           map (λ item, expected_q config item 0%Q) t);
        action_placeholder :=
          action_placeholder acc ++
          map (λ item, one_hot (tr_action item) action_space_n) (nt ++ t) |}.
Proof.
  revert target_q_values acc.
  induction nt as [|item nt IH]; intros tqs acc Hlen.
  - destruct tqs; [|done]. simpl.
    rewrite zip_longest_nil_r. apply feed_dict_loop_filled.
  - destruct tqs as [|tq tqs]; [done|]. simpl in Hlen.
    simpl. rewrite IH by lia. simpl. by rewrite <- !app_assoc.
Qed.

Lemma get_minibatch_feed_dict_aligned (nt t : list (Transition State))
  (target_q_values : list Q) :
  length target_q_values = length nt →
  _get_minibatch_feed_dict config target_q_values nt t =
  Ok {| x_placeholder := map tr_state (nt ++ t);
        q_placeholder :=
          zip_with (expected_q config) nt target_q_values ++
          map (λ item, expected_q config item 0%Q) t;
        action_placeholder :=
          map (λ item, one_hot (tr_action item) action_space_n) (nt ++ t) |}.
Proof.
  intros Hlen. unfold _get_minibatch_feed_dict.
  rewrite bool_decide_eq_true_2 by done.
  by rewrite feed_dict_loop_aligned.
Qed.

(** C2. With one target per non-terminal item (what the assertion
    checks), [_get_minibatch_feed_dict] returns three lists as long as
    the minibatch in which position [i] holds the state, the expected
    value and the one-hot action of one and the same item: the [i]-th of
    the non-terminal items followed by the terminal ones. The expected
    value uses the [i]-th target, or [0] where the targets ran out. *)
Theorem feed_dict_positions_aligned (nt t : list (Transition State))
  (target_q_values : list Q) :
  length target_q_values = length nt →
  ∃ feed,
    _get_minibatch_feed_dict config target_q_values nt t = Ok feed ∧
    length (x_placeholder feed) = length (nt ++ t) ∧
    length (q_placeholder feed) = length (nt ++ t) ∧
    length (action_placeholder feed) = length (nt ++ t) ∧
    ∀ (i : nat) (item : Transition State),
      (nt ++ t) !! i = Some item →
      x_placeholder feed !! i = Some (tr_state item) ∧
      q_placeholder feed !! i =
        Some (tr_reward item +
              reward_discount config * default 0 (target_q_values !! i))%Q ∧
      action_placeholder feed !! i =
        Some (one_hot (tr_action item) action_space_n).
Proof.
  intros Hlen.
  rewrite (get_minibatch_feed_dict_aligned nt t target_q_values Hlen).
  eexists. split; [reflexivity|]. simpl.
  split; [by rewrite length_map|].
  split; [rewrite !length_app, length_zip_with, !length_map; lia|].
  split; [by rewrite length_map|].
  intros i item Hitem.
  split; [by rewrite lookup_map, Hitem|].
  split; [|by rewrite lookup_map, Hitem].
  destruct (decide (i < length nt)) as [Hi|Hi].
  - rewrite lookup_app_l in Hitem by done.
    rewrite lookup_app_l by (rewrite length_zip_with; lia).
    rewrite lookup_zip_with, Hitem. simpl.
    destruct (lookup_lt_is_Some_2 target_q_values i) as [tq Htq]; [lia|].
    by rewrite Htq.
  - rewrite lookup_app_r in Hitem by lia.
    rewrite lookup_app_r by (rewrite length_zip_with; lia).
    rewrite length_zip_with, Hlen, Nat.min_id.
    rewrite lookup_map, Hitem. simpl.
    by rewrite (lookup_ge_None_2 target_q_values i) by lia.
Qed.

End FeedDict.

(** ** One minibatch *)

Section Training.
Context {E : Environment} {F : FrameBuffer Obs} {N : Network State}
        {G : Randomness} {RM : ReplayMemory State} {U : Utils Obs}.
Variable config : Config.

(** What [_train_minibatch] does once the replay memory holds enough:
    the four calls it makes, and the feed dict of the last one. *)
Lemma train_minibatch_run (n : nat) (a : Agent)
  (nt t : list (Transition State)) (rm' : Replay) (tp : Params) :
  n ≤ rm_size (replay_memory a) →
  rm_get_minibatch (replay_memory a) n = ((nt, t), rm') →
  target_params a = Some tp →
  length (q_output tp (get_next_states nt)) = length nt →
  Forall (λ row, row ≠ []) (q_output tp (get_next_states nt)) →
  ∃ max_q,
    Forall2 (λ row m, row_max row = Ok m)
            (q_output tp (get_next_states nt)) max_q ∧
    let feed :=
      {| x_placeholder := map tr_state (nt ++ t);
         q_placeholder :=
           zip_with (expected_q config) nt max_q ++
           map (λ item, expected_q config item 0%Q) t;
         action_placeholder :=
           map (λ item, one_hot (tr_action item) action_space_n) (nt ++ t) |} in
    _train_minibatch config n a =
    (Ok tt,
     log (RunTrainOp feed)
       (set_session (train_op (session a) feed)
          (log (RunQOutput (get_next_states nt) true)
             (log (ReplayGetMinibatch n nt t)
                (set_replay_memory rm'
                   (log (ReplaySize (rm_size (replay_memory a))) a)))))).
Proof.
  intros Hsize Hsample Htp Hlen Hrows.
  destruct (max_axis1_ok _ Hrows) as (max_q & Hmax & Hall).
  exists max_q. split; [done|]. intros feed.
  assert (length max_q = length nt) as Hlen'.
  { rewrite <- Hlen. symmetry. by eapply Forall2_length. }
  unfold _train_minibatch, bind, call_replay_size,
    call_replay_get_minibatch.
  destruct (Nat.ltb_spec (rm_size (replay_memory a)) n) as [?|_]; [lia|].
  simpl. rewrite Hsample. simpl.
  unfold _predict_q_values, bind, gets. simpl. rewrite Htp.
  unfold run_q_output, lift. simpl. rewrite Hmax.
  rewrite (get_minibatch_feed_dict_aligned config nt t max_q Hlen').
  reflexivity.
Qed.

Lemma train_minibatch_small (n : nat) (a : Agent) :
  rm_size (replay_memory a) < n →
  _train_minibatch config n a =
    (Ok tt, log (ReplaySize (rm_size (replay_memory a))) a).
Proof.
  intros Hsmall. unfold _train_minibatch, bind, call_replay_size.
  by destruct (Nat.ltb_spec (rm_size (replay_memory a)) n) as [_|?]; [|lia].
Qed.

(** C7. With fewer transitions in the replay memory than the minibatch
    size, [_train_minibatch] returns after its call of [size()]: it
    makes no other call (in particular it neither samples a minibatch nor
    runs [train_op]), and the parameters in the session, the target
    parameters and the replay memory are what they were. *)
Theorem train_minibatch_skips_when_small (n : nat) (a : Agent) :
  rm_size (replay_memory a) < n →
  fst (_train_minibatch config n a) = Ok tt ∧
  trace (snd (_train_minibatch config n a)) =
    trace a ++ [ReplaySize (rm_size (replay_memory a))] ∧
  train_op_feeds (trace (snd (_train_minibatch config n a))) =
    train_op_feeds (trace a) ∧
  session (snd (_train_minibatch config n a)) = session a ∧
  target_params (snd (_train_minibatch config n a)) = target_params a ∧
  replay_memory (snd (_train_minibatch config n a)) = replay_memory a.
Proof.
  intros Hsmall. rewrite (train_minibatch_small n a Hsmall). simpl.
  repeat split; try reflexivity.
  unfold train_op_feeds. rewrite omap_app. simpl. apply app_nil_r.
Qed.

(** C8. When the sample holds terminal transitions only,
    [_train_minibatch] has no guard for it: right after sampling it runs
    [q_output] under the target parameters with the placeholder for the
    states fed the bare empty list, whatever the session then makes of
    that value; [train_op] comes, if at all, only after that call. *)
Theorem train_minibatch_feeds_empty_batch (n : nat) (a : Agent)
  (t : list (Transition State)) (rm' : Replay) (tp : Params) :
  n ≤ rm_size (replay_memory a) →
  rm_get_minibatch (replay_memory a) n = (([], t), rm') →
  target_params a = Some tp →
  ∃ rest,
    trace (snd (_train_minibatch config n a)) =
      trace a ++ [ReplaySize (rm_size (replay_memory a));
                  ReplayGetMinibatch n [] t;
                  RunQOutput [] true] ++ rest ∧
    length rest ≤ 1 ∧
    length (train_op_feeds rest) = length rest.
Proof.
  intros Hsize Hsample Htp.
  unfold _train_minibatch, bind, call_replay_size, call_replay_get_minibatch.
  destruct (Nat.ltb_spec (rm_size (replay_memory a)) n) as [?|_]; [lia|].
  simpl. rewrite Hsample. simpl.
  unfold _predict_q_values, bind, gets. simpl. rewrite Htp.
  unfold run_q_output, lift. simpl.
  destruct (max_axis1 _) as [max_q|].
  - destruct (_get_minibatch_feed_dict _ _ _ _) as [feed|]; simpl.
    + exists [RunTrainOp feed]. rewrite <- !app_assoc. simpl. split; [done|].
      split; [lia|done].
    + exists []. rewrite <- !app_assoc. simpl. split; [done|].
      split; [lia|done].
  - simpl. exists []. rewrite <- !app_assoc. simpl. split; [done|].
    split; [lia|done].
Qed.

(** C1. Once the replay memory holds enough, [_train_minibatch] runs
    [train_op] on a feed dict whose expected value is, for the [i]-th
    non-terminal item of the sample, its reward plus the discount times
    the maximum of row [i] of the target network's q-values on the
    next states of the non-terminal items (row [i] belongs to that
    item's next state), and, for each terminal item, a number equal to
    its reward, whatever the discount. *)
Theorem train_minibatch_expected_values (n : nat) (a : Agent)
  (nt t : list (Transition State)) (rm' : Replay) (tp : Params) :
  batch_shaped →
  0 < action_space_n →
  n ≤ rm_size (replay_memory a) →
  rm_get_minibatch (replay_memory a) n = ((nt, t), rm') →
  target_params a = Some tp →
  ∃ feed,
    fst (_train_minibatch config n a) = Ok tt ∧
    trace (snd (_train_minibatch config n a)) =
      trace a ++ [ReplaySize (rm_size (replay_memory a));
                  ReplayGetMinibatch n nt t;
                  RunQOutput (map tr_next_state nt) true;
                  RunTrainOp feed] ∧
    (∀ (i : nat) (item : Transition State),
       nt !! i = Some item →
       ∃ (row : list Q) (max_q : Q),
         map tr_next_state nt !! i = Some (tr_next_state item) ∧
         q_output tp (map tr_next_state nt) !! i = Some row ∧
         max_q ∈ row ∧
         Forall (λ q, (q <= max_q)%Q) row ∧
         q_placeholder feed !! i =
           Some (tr_reward item + reward_discount config * max_q)%Q) ∧
    (∀ (j : nat) (item : Transition State),
       t !! j = Some item →
       ∃ v : Q,
         q_placeholder feed !! (length nt + j) = Some v ∧
         (v == tr_reward item)%Q).
Proof.
  intros Hshape Hn Hsize Hsample Htp.
  destruct (Hshape tp (get_next_states nt)) as [Hlen Hrows].
  assert (length (q_output tp (get_next_states nt)) = length nt) as Hlen'.
  { rewrite Hlen. apply length_map. }
  destruct (train_minibatch_run n a nt t rm' tp) as (max_qs & Hmax & Hrun);
    [done | done | done | done | |].
  { eapply Forall_impl; [exact Hrows|]. intros row Hrow ->. simpl in Hrow. lia. }
  simpl in Hrun. rewrite Hrun. clear Hrun.
  assert (length max_qs = length nt) as Hlenq.
  { rewrite <- Hlen'. symmetry. by eapply Forall2_length. }
  eexists. split; [reflexivity|]. split.
  { simpl. rewrite <- !app_assoc. reflexivity. }
  simpl. split.
  - intros i item Hitem.
    destruct (lookup_lt_is_Some_2 (q_output tp (get_next_states nt)) i)
      as [row Hrow].
    { rewrite Hlen'. by eapply lookup_lt_Some. }
    destruct (Forall2_lookup_l _ _ _ _ _ Hmax Hrow) as (max_q & Hmq & Hrm).
    apply row_max_spec in Hrm as [Hin Hle].
    exists row, max_q.
    split; [by rewrite lookup_map, Hitem|].
    split; [exact Hrow|]. split; [exact Hin|]. split; [exact Hle|].
    rewrite lookup_app_l.
    + by rewrite lookup_zip_with, Hitem, Hmq.
    + rewrite length_zip_with, Hlenq, Nat.min_id. by eapply lookup_lt_Some.
  - intros j item Hitem. eexists. split.
    + rewrite lookup_app_r by (rewrite length_zip_with; lia).
      rewrite length_zip_with, Hlenq, Nat.min_id.
      replace (length nt + j - length nt) with j by lia.
      by rewrite lookup_map, Hitem.
    + unfold expected_q. rewrite Qmult_0_r. apply Qplus_0_r.
Qed.

End Training.

(** ** Action selection *)

Section Exploration.
Context {E : Environment} {F : FrameBuffer Obs} {N : Network State}
        {G : Randomness} {RM : ReplayMemory State} {U : Utils Obs}.
Variable config : Config.

(** What [_pick_action] does, by the outcome of the dice. *)
Lemma pick_action_run (state : State) (a : Agent) :
  let p' := decay (random_action_prob a) (min_random_action_prob config)
                  (random_action_prob_decay config) in
  let r := (random_random (random_state a)).1 in
  let rolled :=
    log (RandomRandom r)
      (set_random_state (random_random (random_state a)).2
         (set_random_action_prob p' a)) in
  _pick_action config state a =
  if Qltb r p' then
    (Ok (action_space_sample (env a)).1,
     log (ActionSample (action_space_sample (env a)).1)
       (set_env (action_space_sample (env a)).2 rolled))
  else
    (argmax (q_output (session a) [state]),
     log (RunQOutput [state] false) rolled).
Proof.
  intros p' r rolled. subst p' r rolled.
  unfold _pick_action, _roll_random_action_dice, _decay_random_action_prob,
    bind, modify, call_random_random, gets, ret.
  simpl. destruct (random_random (random_state a)) as [r g'] eqn:Hr. simpl.
  destruct (Qltb r _) eqn:Hdice.
  - unfold call_action_space_sample. simpl.
    by destruct (action_space_sample (env a)) as [x e'].
  - unfold _predict_q_values, run_q_output, lift. simpl.
    by destruct (argmax (q_output (session a) [state])).
Qed.

(** C5. Whatever the agent and the state, a call of [_pick_action]
    leaves the exploration probability at [utils.decay] applied once to
    what it was, it compares the number drawn from [random.random()]
    with that decayed probability, and this holds on the random branch
    as on the greedy one. *)
Theorem pick_action_decays_once (state : State) (a : Agent) :
  let p' := decay (random_action_prob a) (min_random_action_prob config)
                  (random_action_prob_decay config) in
  let r := (random_random (random_state a)).1 in
  random_action_prob (snd (_pick_action config state a)) = p' ∧
  fst (_pick_action config state a) =
    (if Qltb r p' then Ok (action_space_sample (env a)).1
     else argmax (q_output (session a) [state])) ∧
  ∃ call : Event,
    trace (snd (_pick_action config state a)) =
      trace a ++ [RandomRandom r; call] ∧
    call = (if Qltb r p' then ActionSample (action_space_sample (env a)).1
            else RunQOutput [state] false).
Proof.
  intros p' r. rewrite pick_action_run. fold p' r.
  destruct (Qltb r p'); simpl.
  - split; [done|]. split; [done|]. eexists. split; [|done].
    by rewrite <- app_assoc.
  - split; [done|]. split; [done|]. eexists. split; [|done].
    by rewrite <- app_assoc.
Qed.

Lemma pick_action_prob (state : State) (a : Agent) :
  random_action_prob (snd (_pick_action config state a)) =
  decay (random_action_prob a) (min_random_action_prob config)
        (random_action_prob_decay config).
Proof.
  rewrite pick_action_run. simpl. by destruct (Qltb _ _).
Qed.

End Exploration.

Lemma spec_decay_bounds (p floor rate : Q) :
  (floor <= p)%Q → (0 <= rate)%Q →
  (floor <= spec_decay p floor rate)%Q ∧ (spec_decay p floor rate <= p)%Q.
Proof.
  intros Hfloor Hrate. unfold spec_decay.
  split; [apply Qmax2_lower_l|].
  destruct (Qmax2_cases floor (p - rate)%Q) as [[_ ->]|[_ ->]]; [|done].
  rewrite <- (Qplus_0_r p) at 2. unfold Qminus.
  apply Qplus_le_r. rewrite <- (Qopp_involutive 0).
  apply Qopp_le_compat. exact Hrate.
Qed.

Section Schedule.
Context {E : Environment} {F : FrameBuffer Obs} {N : Network State}
        {G : Randomness} {RM : ReplayMemory State}.
Variable resize : Obs → nat → nat → Obs.
Variable config : Config.

(** C6, amended. With [utils.decay] as the spec gives it, provided the
    floor is not above the probability the agent starts from and the
    decay rate is not negative: over any number of calls of
    [_pick_action], on any states, each probability is at most the one
    before it, and every one of them, the starting one included, is at
    least the floor. *)
Theorem exploration_prob_decays_to_floor
  (states : list State) (a : @Agent E F N G RM) :
  (min_random_action_prob config <= random_action_prob a)%Q →
  (0 <= random_action_prob_decay config)%Q →
  let probs :=
    random_action_prob a ::
    @prob_trajectory E F N G RM (spec_utils resize) config states a in
  length probs = S (length states) ∧
  (∀ (i : nat) (p q : Q),
     probs !! i = Some p → probs !! S i = Some q → (q <= p)%Q) ∧
  Forall (λ p, (min_random_action_prob config <= p)%Q) probs.
Proof.
  intros Hfloor Hrate. simpl. revert a Hfloor.
  induction states as [|s rest IH]; intros a Hfloor.
  - simpl. split; [done|]. split.
    + intros i p q _ Hq. by destruct i.
    + by constructor.
  - simpl.
    pose proof (@pick_action_prob E F N G RM (spec_utils resize) config s a)
      as Hp.
    simpl in Hp.
    destruct (spec_decay_bounds (random_action_prob a)
                (min_random_action_prob config)
                (random_action_prob_decay config) Hfloor Hrate)
      as [Hlow Hhigh].
    rewrite <- Hp in Hlow, Hhigh.
    destruct (IH _ Hlow) as (Hlen & Hmono & Hall).
    split; [by rewrite Hlen|]. split.
    + intros [|i] p q Hpi Hqi.
      * simpl in Hpi, Hqi. by simplify_eq.
      * by apply (Hmono i).
    + by constructor.
Qed.

End Schedule.

(** ** One episode *)

Section Episode.
Context {E : Environment} {F : FrameBuffer Obs} {N : Network State}
        {G : Randomness} {RM : ReplayMemory State} {U : Utils Obs}.
Variable config : Config.

(** A solved instance of [emits]: the events are read off the goal. *)
Ltac emitted :=
  eexists; split;
  [ simpl; rewrite <- ?app_assoc; reflexivity
  | split; reflexivity ].

Lemma pick_action_silent (state : State) :
  emits silent (_pick_action config state).
Proof.
  intros a. rewrite pick_action_run. destruct (Qltb _ _); emitted.
Qed.

Lemma pick_action_target_params (state : State) (a : Agent) :
  target_params (snd (_pick_action config state a)) = target_params a.
Proof. rewrite pick_action_run. by destruct (Qltb _ _). Qed.

Lemma pick_action_returns (state : State) (a : Agent) :
  batch_shaped → 0 < action_space_n →
  ∃ action, fst (_pick_action config state a) = Ok action.
Proof.
  intros Hshape Hn. rewrite pick_action_run.
  destruct (Qltb _ _); simpl; [eauto|].
  apply argmax_ok.
  destruct (Hshape (session a) [state]) as [Hlen Hrows].
  destruct (q_output (session a) [state]) as [|row rows]; [done|].
  inversion Hrows as [|? ? Hrow _]; subst. simpl.
  destruct row; [simpl in Hrow; lia | done].
Qed.

Lemma train_minibatch_silent (n : nat) :
  emits silent (_train_minibatch config n).
Proof.
  intros a. unfold _train_minibatch, bind, call_replay_size.
  destruct (rm_size (replay_memory a) <? n); [emitted|].
  unfold call_replay_get_minibatch. simpl.
  destruct (rm_get_minibatch (replay_memory a) n) as [[nt t] rm'].
  unfold _predict_q_values, bind, gets. simpl.
  destruct (target_params a) as [tp|]; [|emitted].
  unfold run_q_output, lift. simpl.
  destruct (max_axis1 _) as [max_q|]; [|emitted].
  destruct (_get_minibatch_feed_dict _ _ _ _); emitted.
Qed.

Lemma train_minibatch_target_params (n : nat) (a : Agent) :
  target_params (snd (_train_minibatch config n a)) = target_params a.
Proof.
  unfold _train_minibatch, bind, call_replay_size.
  destruct (rm_size (replay_memory a) <? n); [done|].
  unfold call_replay_get_minibatch. simpl.
  destruct (rm_get_minibatch (replay_memory a) n) as [[nt t] rm'].
  unfold _predict_q_values, bind, gets. simpl.
  destruct (target_params a) as [tp|] eqn:Htp; [|done].
  unfold run_q_output, lift. simpl.
  destruct (max_axis1 _) as [max_q|]; [|done].
  by destruct (_get_minibatch_feed_dict _ _ _ _).
Qed.

Lemma train_minibatch_returns (n : nat) (a : Agent) :
  batch_shaped → 0 < action_space_n → is_Some (target_params a) →
  fst (_train_minibatch config n a) = Ok tt.
Proof.
  intros Hshape Hn [tp Htp].
  destruct (decide (rm_size (replay_memory a) < n)) as [Hsmall|Hbig].
  { by rewrite train_minibatch_small. }
  destruct (rm_get_minibatch (replay_memory a) n) as [[nt t] rm'] eqn:Hsample.
  destruct (Hshape tp (get_next_states nt)) as [Hlen Hrows].
  destruct (train_minibatch_run config n a nt t rm' tp)
    as (max_q & _ & Hrun); [lia | done | done | | |].
  - rewrite Hlen. apply length_map.
  - eapply Forall_impl; [exact Hrows|].
    intros row Hrow ->. simpl in Hrow. lia.
  - simpl in Hrun. by rewrite Hrun.
Qed.

(** One turn of the [while] loop of [train_episode], by what
    [_pick_action], [env.step] and [_train_minibatch] give. *)
Lemma episode_loop_unfold (fuel : nat) (state : State) (total : Q)
  (steps : nat) (a : Agent) :
  episode_loop config (S fuel) state total steps a =
  match _pick_action config state a with
  | (Raise e, a1) => (Raise e, a1)
  | (Ok action, a1) =>
      let step := env_step (env a1) action in
      let o := step.1.1.1 in
      let r := step.1.1.2 in
      let d := step.1.2 in
      let stored :=
        if d then default r (FAILURE_PENALTY !! env_spec_id) else r in
      let fb' := fb_append (frame_buffer a1) o in
      let item := mkTransition state action stored (fb_get_state fb') d in
      let a2 :=
        log (ReplayAdd item)
          (set_replay_memory (rm_add (replay_memory a1) item)
             (log (FrameGetState (fb_get_state fb'))
                (log (FrameAppend o)
                   (set_frame_buffer fb'
                      (log (EnvStep action o r d) (set_env step.2 a1)))))) in
      match _train_minibatch config (minibatch_size config) a2 with
      | (Raise e, a3) => (Raise e, a3)
      | (Ok _, a3) =>
          let a4 := set_total_steps (S (total_steps a3)) a3 in
          if d then (Ok ((total + r)%Q, S steps), a4)
          else episode_loop config fuel (fb_get_state fb') (total + r)%Q
                 (S steps) a4
      end
  end.
Proof.
  simpl. unfold bind at 1.
  destruct (_pick_action config state a) as [[action|e] a1]; [|done].
  unfold bind at 1. unfold call_env_step.
  destruct (env_step (env a1) action) as [[[o r] d] e']. simpl.
  unfold bind at 1. unfold call_frame_append. simpl.
  unfold bind at 1. unfold call_frame_get_state. simpl.
  unfold bind at 1. unfold call_replay_add. simpl.
  unfold bind at 1.
  destruct (_train_minibatch _ _ _) as [[[]|e] a3]; [|done].
  unfold bind at 1. unfold modify. by destruct d.
Qed.

(** The loop only ever adds to the trace. *)
Lemma episode_loop_grows (fuel : nat) (state : State) (total : Q)
  (steps : nat) :
  emits (λ _, True) (episode_loop config fuel state total steps).
Proof.
  revert state total steps.
  induction fuel as [|fuel IH]; intros state total steps a.
  { exists []. by rewrite app_nil_r. }
  rewrite episode_loop_unfold.
  destruct (pick_action_silent state a) as (evs1 & H1 & _).
  destruct (_pick_action config state a) as [[action|e] a1];
    simpl in H1; [|eauto].
  cbv zeta.
  match goal with
  | |- context [_train_minibatch _ _ ?x] => set (a2 := x)
  end.
  destruct (train_minibatch_silent (minibatch_size config) a2)
    as (evs2 & H2 & _).
  assert (∃ evs, trace a2 = trace a ++ evs) as [evs Ha2].
  { subst a2. simpl. rewrite H1, <- !app_assoc. eauto. }
  rewrite Ha2 in H2.
  destruct (_train_minibatch _ _ a2) as [[[]|e] a3]; simpl in H2.
  - destruct (env_step (env a1) action).1.2.
    + simpl. rewrite H2, <- app_assoc. eauto.
    + match goal with
      | |- context [episode_loop _ _ ?s ?q ?k ?x] =>
          destruct (IH s q k x) as (evs3 & H3 & _)
      end.
      rewrite H3. simpl. rewrite H2, <- !app_assoc. eauto.
  - simpl. rewrite H2, <- app_assoc. eauto.
Qed.

Lemma env_steps_app (evs1 evs2 : list Event) :
  env_steps (evs1 ++ evs2) = env_steps evs1 ++ env_steps evs2.
Proof. apply omap_app. Qed.

Lemma stored_rewards_app (evs1 evs2 : list Event) :
  stored_rewards (evs1 ++ evs2) = stored_rewards evs1 ++ stored_rewards evs2.
Proof. apply omap_app. Qed.

(** The loop under a network that keeps its contract: it returns, its
    total is the rewards of the environment added up in order onto the
    total it started with, its step count grows by the number of steps,
    and the rewards it stores are the overridden ones. *)
Lemma episode_loop_rewards (fuel : nat) (state : State) (total : Q)
  (steps : nat) (a : Agent) :
  batch_shaped → 0 < action_space_n → is_Some (target_params a) →
  ∃ evs,
    fst (episode_loop config fuel state total steps a) =
      Ok (fold_left Qplus (raw_rewards evs) total,
          steps + length (env_steps evs)) ∧
    trace (snd (episode_loop config fuel state total steps a)) =
      trace a ++ evs ∧
    stored_rewards evs = map overridden (env_steps evs).
Proof.
  intros Hshape Hn. revert state total steps a.
  induction fuel as [|fuel IH]; intros state total steps a Htp.
  { exists []. simpl. by rewrite Nat.add_0_r, app_nil_r. }
  rewrite episode_loop_unfold.
  destruct (pick_action_silent state a) as (evs1 & H1 & Hs1 & Hs1').
  destruct (pick_action_returns state a Hshape Hn) as [action Hact].
  pose proof (pick_action_target_params state a) as Htp1.
  destruct (_pick_action config state a) as [r1 a1].
  simpl in H1, Hact, Htp1. subst r1. cbv zeta.
  destruct (env_step (env a1) action) as [[[o r] d] e']. simpl.
  match goal with
  | |- context [_train_minibatch _ _ ?x] => set (a2 := x)
  end.
  assert (trace a2 =
          trace a ++ evs1 ++
          [EnvStep action o r d; FrameAppend o;
           FrameGetState (fb_get_state (fb_append (frame_buffer a1) o));
           ReplayAdd (mkTransition state action
                        (if d then default r (FAILURE_PENALTY !! env_spec_id)
                         else r)
                        (fb_get_state (fb_append (frame_buffer a1) o)) d)])
    as Ha2.
  { subst a2. simpl. by rewrite H1, <- !app_assoc. }
  assert (is_Some (target_params a2)) as Htp2.
  { subst a2. simpl. by rewrite Htp1. }
  pose proof (train_minibatch_returns (minibatch_size config) a2
                Hshape Hn Htp2) as Hret.
  destruct (train_minibatch_silent (minibatch_size config) a2)
    as (evs2 & H2 & Hs2 & Hs2').
  pose proof (train_minibatch_target_params (minibatch_size config) a2) as Htp3.
  rewrite Ha2 in H2.
  destruct (_train_minibatch _ _ a2) as [r3 a3].
  simpl in Hret, H2, Htp3. subst r3.
  destruct d.
  - eexists. split; [|split].
    2: { simpl. rewrite H2, <- !app_assoc. reflexivity. }
    + unfold raw_rewards. rewrite !env_steps_app, Hs1, Hs2. simpl.
      by rewrite Nat.add_1_r.
    + rewrite !stored_rewards_app, !env_steps_app, Hs1, Hs1', Hs2, Hs2'.
      reflexivity.
  - match goal with
    | |- context [episode_loop _ _ ?s ?q ?k ?x] =>
        destruct (IH s q k x) as (evs3 & Hfst & H3 & Hst3)
    end.
    { simpl. rewrite Htp3. exact Htp2. }
    rewrite Hfst, H3. eexists. split; [|split].
    2: { simpl. rewrite H2, <- !app_assoc. reflexivity. }
    + unfold raw_rewards. rewrite !env_steps_app, Hs1, Hs2. simpl.
      f_equal. f_equal. lia.
    + rewrite !stored_rewards_app, !env_steps_app, Hs1, Hs1', Hs2, Hs2'.
      simpl. by rewrite Hst3.
Qed.

(** C4. On a step on which [_pick_action] gave [action] and the
    environment answered [(o, r, d)], the transition handed to the replay
    memory carries, as its reward, the penalty registered for the
    environment's id if [d] holds and one is registered, and [r] itself
    otherwise: when [d] holds and no penalty is registered, and whenever
    [d] does not hold. *)
Theorem stored_reward_is_overridden (fuel : nat) (state : State) (total : Q)
  (steps : nat) (a a1 : Agent) (action : Action) (o : Obs) (r : Q)
  (d : bool) (e' : EnvSt) :
  _pick_action config state a = (Ok action, a1) →
  env_step (env a1) action = ((o, r, d), e') →
  let stored :=
    if d then
      match FAILURE_PENALTY !! env_spec_id with
      | Some penalty => penalty
      | None => r
      end
    else r in
  let next_state := fb_get_state (fb_append (frame_buffer a1) o) in
  ∃ rest,
    trace (snd (episode_loop config (S fuel) state total steps a)) =
      trace a1 ++
      [EnvStep action o r d; FrameAppend o; FrameGetState next_state;
       ReplayAdd (mkTransition state action stored next_state d)] ++ rest.
Proof.
  intros Hpick Hstep stored next_state.
  rewrite episode_loop_unfold, Hpick. cbv zeta. rewrite Hstep. simpl.
  match goal with
  | |- context [_train_minibatch _ _ ?x] => set (a2 := x)
  end.
  assert (trace a2 =
          trace a1 ++
          [EnvStep action o r d; FrameAppend o; FrameGetState next_state;
           ReplayAdd (mkTransition state action stored next_state d)])
    as Ha2.
  { subst a2 stored next_state. simpl. rewrite <- !app_assoc. simpl.
    by destruct d, (FAILURE_PENALTY !! env_spec_id). }
  destruct (train_minibatch_silent (minibatch_size config) a2)
    as (evs2 & H2 & _).
  rewrite Ha2 in H2.
  destruct (_train_minibatch _ _ a2) as [[[]|e] a3]; simpl in H2.
  - destruct d.
    + simpl. rewrite H2, <- app_assoc. eauto.
    + match goal with
      | |- context [episode_loop _ _ ?s ?q ?k ?x] =>
          destruct (episode_loop_grows fuel s q k x) as (evs3 & H3 & _)
      end.
      rewrite H3. simpl. rewrite H2, <- !app_assoc. eauto.
  - simpl. rewrite H2, <- app_assoc. eauto.
Qed.

(** [train_episode] is its three opening calls followed by the loop. *)
Lemma train_episode_unfold (max_steps : nat) (a : Agent) :
  train_episode config max_steps a =
  let o := (env_reset (env a)).1 in
  let fb' := fb_append (frame_buffer a) o in
  episode_loop config max_steps (fb_get_state fb') 0%Q 0
    (log (FrameGetState (fb_get_state fb'))
       (log (FrameAppend o)
          (set_frame_buffer fb'
             (log (EnvReset o) (set_env (env_reset (env a)).2 a))))).
Proof.
  unfold train_episode, bind, call_env_reset, call_frame_append,
    call_frame_get_state.
  by destruct (env_reset (env a)) as [o e'].
Qed.

(** How [train_episode] starts: a reset, one [append] of what the reset
    returned, and then the first [get_state]. *)
Lemma train_episode_start (max_steps : nat) (a : Agent) :
  let o := (env_reset (env a)).1 in
  ∃ rest,
    trace (snd (train_episode config max_steps a)) =
      trace a ++
      EnvReset o :: FrameAppend o ::
      FrameGetState (fb_get_state (fb_append (frame_buffer a) o)) :: rest.
Proof.
  intros o. rewrite train_episode_unfold. cbv zeta. fold o.
  match goal with
  | |- context [episode_loop _ _ ?s ?q ?k ?x] =>
      destruct (episode_loop_grows max_steps s q k x) as (evs & H & _)
  end.
  rewrite H. simpl. rewrite <- !app_assoc. eauto.
Qed.

(** [train_episode] under a network that keeps its contract. *)
Lemma train_episode_rewards (max_steps : nat) (a : Agent) :
  batch_shaped → 0 < action_space_n → is_Some (target_params a) →
  ∃ evs,
    fst (train_episode config max_steps a) =
      Ok (sum_rewards (raw_rewards evs), length (raw_rewards evs)) ∧
    trace (snd (train_episode config max_steps a)) = trace a ++ evs ∧
    stored_rewards evs = map overridden (env_steps evs).
Proof.
  intros Hshape Hn Htp. rewrite train_episode_unfold. cbv zeta.
  set (o := (env_reset (env a)).1).
  match goal with
  | |- context [episode_loop _ _ ?s ?q ?k ?x] =>
      destruct (episode_loop_rewards max_steps s q k x Hshape Hn)
        as (evs & Hfst & Htrace & Hstored); [exact Htp|]
  end.
  rewrite Hfst, Htrace. simpl.
  exists ([EnvReset o; FrameAppend o;
           FrameGetState (fb_get_state (fb_append (frame_buffer a) o))]
          ++ evs).
  split; [|split].
  - unfold sum_rewards, raw_rewards. rewrite env_steps_app. simpl.
    by rewrite length_fmap.
  - by rewrite <- !app_assoc.
  - by rewrite stored_rewards_app, env_steps_app.
Qed.

(** One turn of the [for] loop of [train], by what [train_episode]
    gives. *)
Lemma train_loop_unfold (remaining episode max_steps : nat)
  (supervisor : option (nat → bool)) (a : Agent) :
  train_loop config (S remaining) episode max_steps supervisor a =
  match train_episode config max_steps a with
  | (Raise e, a1) => (Raise e, a1)
  | (Ok (reward, steps), a1) =>
      let a2 := log (LogEpisode reward steps) a1 in
      let freq := target_update_freq config in
      if bool_decide (freq = 0%Z) then (Raise ZeroDivisionError, a2)
      else
        let a3 :=
          if bool_decide ((Z.of_nat (total_steps a2) `mod` freq)%Z = 0%Z)
          then set_target_params (Some (session a2)) (log RunParams a2)
          else a2 in
        match supervisor with
        | None => train_loop config remaining (S episode) max_steps None a3
        | Some should_stop =>
            let a4 := log (ShouldStop (should_stop episode)) a3 in
            if should_stop episode then (Ok tt, a4)
            else train_loop config remaining (S episode) max_steps
                   (Some should_stop) a4
        end
  end.
Proof.
  simpl. unfold bind at 1.
  destruct (train_episode config max_steps a) as [[[reward steps]|e] a1];
    [|done].
  unfold bind at 1. unfold call_log_episode. simpl.
  unfold bind at 1. unfold gets. simpl.
  destruct (bool_decide (target_update_freq config = 0%Z)); [done|].
  unfold bind at 1.
  destruct (bool_decide (_ = 0%Z)).
  - unfold _update_target_network, bind, run_params, modify. simpl.
    unfold bind. destruct supervisor as [should_stop|]; simpl; [|done].
    by destruct (should_stop episode).
  - unfold ret at 1. unfold bind.
    destruct supervisor as [should_stop|]; simpl; [|done].
    by destruct (should_stop episode).
Qed.

(** [train] only ever adds to the trace. *)
Lemma train_loop_grows (remaining episode max_steps : nat)
  (supervisor : option (nat → bool)) :
  emits (λ _, True) (train_loop config remaining episode max_steps supervisor).
Proof.
  revert episode.
  induction remaining as [|remaining IH]; intros episode a.
  { exists []. by rewrite app_nil_r. }
  rewrite train_loop_unfold.
  destruct (train_episode_start max_steps a) as [rest1 H1].
  destruct (train_episode config max_steps a) as [[[reward steps]|e] a1];
    simpl in H1; [|eauto].
  cbv zeta.
  destruct (bool_decide (target_update_freq config = 0%Z)).
  { simpl. rewrite H1. rewrite <- app_assoc. eauto. }
  match goal with
  | |- context [train_loop _ _ _ _ None ?x] => set (a3 := x)
  end.
  assert (∃ evs, trace a3 = trace a ++ evs) as [evs3 H3].
  { subst a3. destruct (bool_decide (_ = 0%Z)); simpl;
      rewrite H1, <- ?app_assoc; eauto. }
  destruct supervisor as [should_stop|].
  - destruct (should_stop episode) eqn:Hstop.
    + simpl. rewrite H3, <- app_assoc. eauto.
    + match goal with
      | |- context [train_loop _ _ ?k _ _ ?x] =>
          destruct (IH k x) as (evs4 & H4 & _)
      end.
      rewrite H4. simpl. rewrite H3, <- !app_assoc. eauto.
  - destruct (IH (S episode) a3) as (evs4 & H4 & _).
    rewrite H4, H3, <- app_assoc. eauto.
Qed.

(** What [train] logs for an episode is what [train_episode] returned
    for it. *)
Lemma train_logs_episode_reward (remaining episode max_steps : nat)
  (supervisor : option (nat → bool)) (a : Agent) :
  batch_shaped → 0 < action_space_n → is_Some (target_params a) →
  ∃ (evs : list Event) (total : Q) (steps : nat),
    fst (train_episode config max_steps a) = Ok (total, steps) ∧
    trace (snd (train_episode config max_steps a)) = trace a ++ evs ∧
    total = sum_rewards ((env_steps evs).*1) ∧
    steps = length (env_steps evs) ∧
    stored_rewards evs =
      map (λ step : Q * bool,
             if step.2 then default step.1 (FAILURE_PENALTY !! env_spec_id)
             else step.1)
          (env_steps evs) ∧
    ∃ rest,
      trace (snd (train_loop config (S remaining) episode max_steps
                    supervisor a)) =
        trace a ++ evs ++ LogEpisode total steps :: rest.
Proof.
  intros Hshape Hn Htp.
  destruct (train_episode_rewards max_steps a Hshape Hn Htp)
    as (evs & Hfst & Htrace & Hstored).
  exists evs, (sum_rewards (raw_rewards evs)), (length (raw_rewards evs)).
  split; [exact Hfst|]. split; [exact Htrace|]. split; [done|].
  split; [apply length_fmap|]. split; [exact Hstored|].
  rewrite train_loop_unfold.
  destruct (train_episode config max_steps a) as [r1 a1].
  simpl in Hfst, Htrace. subst r1. cbv zeta.
  destruct (bool_decide (target_update_freq config = 0%Z)).
  { simpl. rewrite Htrace, <- app_assoc. eauto. }
  match goal with
  | |- context [train_loop _ _ _ _ None ?x] => set (a3 := x)
  end.
  assert (∃ evs3, trace a3 =
            trace a ++ evs ++
            LogEpisode (sum_rewards (raw_rewards evs))
                       (length (raw_rewards evs)) :: evs3)
    as [evs3 H3].
  { subst a3. destruct (bool_decide (_ = 0%Z)); simpl;
      rewrite Htrace, <- ?app_assoc; simpl; eauto. }
  destruct supervisor as [should_stop|].
  - destruct (should_stop episode) eqn:Hstop.
    + simpl. rewrite H3, <- !app_assoc. simpl. eauto.
    + match goal with
      | |- context [train_loop _ _ ?k _ _ ?x] =>
          destruct (train_loop_grows remaining k max_steps (Some should_stop) x)
            as (evs4 & H4 & _)
      end.
      rewrite H4. simpl. rewrite H3, <- !app_assoc. simpl. eauto.
  - destruct (train_loop_grows remaining (S episode) max_steps None a3)
      as (evs4 & H4 & _).
    rewrite H4, H3, <- !app_assoc. simpl. eauto.
Qed.

End Episode.

(** ** The start of an episode, with the rolling window *)

Section RollingWindow.
Context {E : Environment}
        {N : Network (@State _ (spec_frame_buffer Obs))} {G : Randomness}
        {RM : ReplayMemory (@State _ (spec_frame_buffer Obs))} {U : Utils Obs}.
Variable config : Config.

(** C9, amended. [train_episode] starts with the reset of the
    environment, then appends the observation of the reset to the frame
    buffer, once, and only then asks for the first state. The window is
    not cleared: that first state is the old window with the
    preprocessed observation pushed at its end, cut down from the front
    to the capacity. *)
Theorem train_episode_seeds_window (max_steps : nat)
  (a : @Agent E (spec_frame_buffer Obs) N G RM) :
  let o := (env_reset (env a)).1 in
  let w := frame_buffer a in
  let pushed := frames w ++ [preprocessor w o] in
  ∃ rest : list (@Event E (spec_frame_buffer Obs)),
    trace (snd (train_episode config max_steps a)) =
      trace a ++
      EnvReset o :: FrameAppend o ::
      @FrameGetState E (spec_frame_buffer Obs)
        (drop (length pushed - capacity w) pushed) :: rest.
Proof.
  intros o w pushed.
  destruct (train_episode_start config max_steps a) as [rest Hrest].
  exists rest. exact Hrest.
Qed.

End RollingWindow.

(** ** The cadence of the target network *)

(** C3. With the target network to be updated every [10] steps, three
    episodes of seven steps each on an environment that never reports
    [done]: [train] returns after [21] steps, having passed step [10] and
    step [20], and the only synchronisation in the trace is the one of
    [__init__]. *)
Theorem train_misses_update_cadence :
  let run :=
    @train endless endless_frames endless_network alternating_random
           endless_replay endless_utils (small_config 1) 3 7 None
           endless_agent in
  target_update_freq (small_config 1) = 10%Z ∧
  fst run = Ok tt ∧
  total_steps (snd run) = 21 ∧
  step_count (trace (snd run)) = 21 ∧
  sync_count (trace endless_agent) = 1 ∧
  sync_count (trace (snd run)) = 1.
Proof. vm_compute. repeat split. Qed.

(** ** The statements on the small instance *)

Lemma counting_network_shaped :
  @batch_shaped cartpole cartpole_frames cartpole_network.
Proof.
  intros p states. split.
  - apply length_map.
  - simpl. induction states; constructor; done.
Qed.

Section CartPole.
#[local] Existing Instance cartpole.
#[local] Existing Instance cartpole_frames.
#[local] Existing Instance cartpole_network.
#[local] Existing Instance alternating_random.
#[local] Existing Instance cartpole_replay.
#[local] Existing Instance cartpole_utils.

(** C9, as the spec has it, fails on the second episode: the first
    state it exposes is [[3; 4]], where [4] is the observation of the
    reset and [3] the last frame of the episode before. *)
Lemma episode_start_keeps_old_frame :
  ¬ cleared_and_refilled (small_config 2) 3 cartpole_agent_1.
Proof.
  intros Hfresh.
  specialize (Hfresh 4 [3; 4] eq_refl eq_refl 3).
  assert (3 = 4) as Habs; [|discriminate Habs].
  apply Hfresh. constructor.
Qed.

Lemma train_minibatch_expected_values_witness :
  ∃ feed,
    fst (_train_minibatch (small_config 2) 2 cartpole_agent_1) = Ok tt ∧
    trace (snd (_train_minibatch (small_config 2) 2 cartpole_agent_1)) =
      trace cartpole_agent_1 ++
      [ReplaySize (rm_size (replay_memory cartpole_agent_1));
       ReplayGetMinibatch 2 [item_2] [item_3];
       RunQOutput (map tr_next_state [item_2]) true;
       RunTrainOp feed] ∧
    (∀ (i : nat) (item : Transition State),
       [item_2] !! i = Some item →
       ∃ (row : list Q) (max_q : Q),
         map tr_next_state [item_2] !! i = Some (tr_next_state item) ∧
         q_output (0 : Params) (map tr_next_state [item_2]) !! i = Some row ∧
         max_q ∈ row ∧
         Forall (λ q, (q <= max_q)%Q) row ∧
         q_placeholder feed !! i =
           Some (tr_reward item +
                 reward_discount (small_config 2) * max_q)%Q) ∧
    (∀ (j : nat) (item : Transition State),
       [item_3] !! j = Some item →
       ∃ v : Q,
         q_placeholder feed !! (length [item_2] + j) = Some v ∧
         (v == tr_reward item)%Q).
Proof.
  apply (train_minibatch_expected_values (small_config 2) 2 cartpole_agent_1
           [item_2] [item_3] (replay_memory cartpole_agent_1) 0).
  - exact counting_network_shaped.
  - simpl. lia.
  - vm_compute. lia.
  - reflexivity.
  - reflexivity.
Defined.

Lemma feed_dict_positions_aligned_witness :
  length [5%Q] = length [item_2] ∧
  ∃ feed,
    _get_minibatch_feed_dict (small_config 2) [5%Q] [item_2] [item_3] = Ok feed ∧
    length (x_placeholder feed) = length ([item_2] ++ [item_3]) ∧
    length (q_placeholder feed) = length ([item_2] ++ [item_3]) ∧
    length (action_placeholder feed) = length ([item_2] ++ [item_3]) ∧
    ∀ (i : nat) (item : Transition State),
      ([item_2] ++ [item_3]) !! i = Some item →
      x_placeholder feed !! i = Some (tr_state item) ∧
      q_placeholder feed !! i =
        Some (tr_reward item +
              reward_discount (small_config 2) * default 0 ([5%Q] !! i))%Q ∧
      action_placeholder feed !! i =
        Some (one_hot (tr_action item) action_space_n).
Proof.
  split; [reflexivity|].
  apply (feed_dict_positions_aligned (small_config 2) [item_2] [item_3] [5%Q]).
  reflexivity.
Defined.

Lemma stored_reward_is_overridden_witness :
  let a1 := snd (_pick_action (small_config 2) [0] cartpole_agent_late) in
  ∃ rest,
    trace (snd (episode_loop (small_config 2) 1 [0] 0%Q 0
                  cartpole_agent_late)) =
      trace a1 ++
      [EnvStep 1 7 1%Q true; FrameAppend 7; FrameGetState [7];
       ReplayAdd (mkTransition [0] 1 (-100)%Q [7] true)] ++ rest.
Proof.
  exact (stored_reward_is_overridden (small_config 2) 0 [0] 0%Q 0
           cartpole_agent_late
           (snd (_pick_action (small_config 2) [0] cartpole_agent_late))
           1 7 1%Q true (8, 3) eq_refl eq_refl).
Defined.

Lemma exploration_prob_decays_to_floor_witness :
  let probs :=
    random_action_prob cartpole_agent ::
    prob_trajectory (small_config 2) [[0]; [0; 1]; [1; 2]] cartpole_agent in
  length probs = 4 ∧
  (∀ (i : nat) (p q : Q),
     probs !! i = Some p → probs !! S i = Some q → (q <= p)%Q) ∧
  Forall (λ p, (min_random_action_prob (small_config 2) <= p)%Q) probs.
Proof.
  apply (@exploration_prob_decays_to_floor cartpole cartpole_frames
           cartpole_network alternating_random cartpole_replay
           (λ frame _ _, frame) (small_config 2)
           [[0]; [0; 1]; [1; 2]] cartpole_agent).
  - vm_compute. discriminate.
  - vm_compute. discriminate.
Defined.

Lemma train_minibatch_skips_when_small_witness :
  rm_size (replay_memory cartpole_agent) < 2 ∧
  fst (_train_minibatch (small_config 2) 2 cartpole_agent) = Ok tt ∧
  trace (snd (_train_minibatch (small_config 2) 2 cartpole_agent)) =
    trace cartpole_agent ++ [ReplaySize (rm_size (replay_memory cartpole_agent))] ∧
  train_op_feeds (trace (snd (_train_minibatch (small_config 2) 2 cartpole_agent))) =
    train_op_feeds (trace cartpole_agent) ∧
  session (snd (_train_minibatch (small_config 2) 2 cartpole_agent)) =
    session cartpole_agent ∧
  target_params (snd (_train_minibatch (small_config 2) 2 cartpole_agent)) =
    target_params cartpole_agent ∧
  replay_memory (snd (_train_minibatch (small_config 2) 2 cartpole_agent)) =
    replay_memory cartpole_agent.
Proof.
  split; [vm_compute; lia|].
  apply (train_minibatch_skips_when_small (small_config 2) 2 cartpole_agent).
  vm_compute. lia.
Defined.

Lemma train_minibatch_feeds_empty_batch_witness :
  ∃ rest,
    trace (snd (_train_minibatch (small_config 2) 1 cartpole_agent_1)) =
      trace cartpole_agent_1 ++
      [ReplaySize (rm_size (replay_memory cartpole_agent_1));
       ReplayGetMinibatch 1 [] [item_3];
       RunQOutput [] true] ++ rest ∧
    length rest ≤ 1 ∧
    length (train_op_feeds rest) = length rest.
Proof.
  apply (train_minibatch_feeds_empty_batch (small_config 2) 1 cartpole_agent_1
           [item_3] (replay_memory cartpole_agent_1) 0).
  - vm_compute. lia.
  - reflexivity.
  - reflexivity.
Defined.

(** C6, as the spec has it, fails for a configuration whose starting
    probability is below its floor: from [0] with a floor of [1/10] the
    first call of [_pick_action] raises the probability to [1/10]. *)
Lemma exploration_prob_rises_from_below_floor :
  ¬ never_rises_nor_below_floor low_start_config [[0]] low_start_agent.
Proof.
  intros [Hmono _].
  specialize (Hmono 0 0%Q (1 # 10)%Q eq_refl eq_refl).
  revert Hmono. vm_compute. intros Hle. by apply Hle.
Qed.

(** The first episode on the small instance: three steps of reward [1]
    make a returned total of [3], while the transitions stored carry
    [1], [1] and the penalty [-100]. *)
Example cartpole_first_episode :
  fst (train_episode (small_config 2) 3 cartpole_agent) = Ok (3%Q, 3) ∧
  stored_rewards (trace (snd (train_episode (small_config 2) 3 cartpole_agent)))
    = [1%Q; 1%Q; (-100)%Q].
Proof. vm_compute. split; reflexivity. Qed.

(** The scenario of the spec for the schedule: from [1] with floor
    [1/10] and rate [1/100], the probability after [91] calls is the
    floor. *)
Example probability_after_91_calls :
  ∃ p : Q,
    last (prob_trajectory (small_config 2) (replicate 91 [0]) cartpole_agent)
      = Some p ∧
    (p == 1 # 10)%Q.
Proof. eexists. split; [vm_compute; reflexivity | reflexivity]. Qed.

End CartPole.

(** When the episodes do end on a multiple of the frequency the target
    network is synchronised: two episodes of five steps with a frequency
    of [10] give the synchronisation of [__init__] and one more. *)
Example train_updates_at_episode_end :
  let run :=
    @train endless endless_frames endless_network alternating_random
           endless_replay endless_utils (small_config 1) 2 5 None
           endless_agent in
  total_steps (snd run) = 10 ∧ sync_count (trace (snd run)) = 2.
Proof. vm_compute. split; reflexivity. Qed.

(** * Further properties of the agent *)

(** ** The feed dict, the minibatch and the shapes *)

Section MoreTraining.
Context {E : Environment} {F : FrameBuffer Obs} {N : Network State}
        {G : Randomness} {RM : ReplayMemory State} {U : Utils Obs}.
Variable config : Config.

(** X1. [_get_minibatch_feed_dict] returns a feed dict exactly when
    there are as many targets as non-terminal items, and then one
    expected value per item of the minibatch; otherwise what it raises is
    the [AssertionError] of its first line. The fill value of
    [zip_longest] is therefore never unpacked as an item. *)
Theorem feed_dict_built_iff_one_target_each
  (target_q_values : list Q) (nt t : list (Transition State)) :
  match _get_minibatch_feed_dict config target_q_values nt t with
  | Ok feed =>
      length target_q_values = length nt ∧
      length (q_placeholder feed) = length nt + length t
  | Raise e =>
      e = AssertionError ∧ length target_q_values ≠ length nt
  end.
Proof.
  destruct (decide (length target_q_values = length nt)) as [Heq|Hne].
  - rewrite (get_minibatch_feed_dict_aligned config nt t _ Heq). simpl.
    split; [done|].
    rewrite length_app, length_zip_with, length_map. lia.
  - unfold _get_minibatch_feed_dict.
    by rewrite bool_decide_eq_false_2.
Qed.

(** What [_train_minibatch] leaves alone, however it ends. *)
Lemma train_minibatch_frame (n : nat) (a : Agent) :
  let a' := snd (_train_minibatch config n a) in
  env a' = env a ∧
  total_steps a' = total_steps a ∧
  random_action_prob a' = random_action_prob a ∧
  frame_buffer a' = frame_buffer a ∧
  target_params a' = target_params a ∧
  ∃ evs,
    trace a' = trace a ++ evs ∧
    length (train_op_feeds evs) ≤ 1 ∧
    match fst (_train_minibatch config n a) with
    | Ok _ => True
    | Raise _ => session a' = session a ∧ train_op_feeds evs = []
    end.
Proof.
  unfold _train_minibatch, bind, call_replay_size.
  destruct (rm_size (replay_memory a) <? n).
  { simpl. repeat split; try done. eexists. split; [reflexivity|]. simpl. lia. }
  unfold call_replay_get_minibatch. simpl.
  destruct (rm_get_minibatch (replay_memory a) n) as [[nt t] rm'].
  unfold _predict_q_values, bind, gets. simpl.
  destruct (target_params a) as [tp|] eqn:Htp.
  2: { simpl. repeat split; try done. eexists.
       split; [rewrite <- app_assoc; reflexivity|]. simpl. split; [lia|done]. }
  unfold run_q_output, lift. simpl.
  destruct (max_axis1 _) as [max_q|].
  2: { simpl. repeat split; try done. eexists.
       split; [rewrite <- !app_assoc; reflexivity|]. simpl. split; [lia|done]. }
  destruct (_get_minibatch_feed_dict _ _ _ _) as [feed|].
  - simpl. repeat split; try done. eexists.
    split; [rewrite <- !app_assoc; reflexivity|]. simpl. split; [lia|done].
  - simpl. repeat split; try done. eexists.
    split; [rewrite <- !app_assoc; reflexivity|]. simpl. split; [lia|done].
Qed.

(** X2. Whatever it is called on and however it ends, [_train_minibatch]
    leaves the environment, the step counter, the exploration
    probability, the frame buffer and the target parameters alone and
    runs [train_op] at most once; and when it raises, it has not run
    [train_op] and the parameters in the session are what they were. *)
Theorem train_minibatch_touches_only_session_and_replay (n : nat) (a : Agent) :
  let a' := snd (_train_minibatch config n a) in
  env a' = env a ∧
  total_steps a' = total_steps a ∧
  random_action_prob a' = random_action_prob a ∧
  frame_buffer a' = frame_buffer a ∧
  target_params a' = target_params a ∧
  ∃ evs,
    trace a' = trace a ++ evs ∧
    length (train_op_feeds evs) ≤ 1 ∧
    match fst (_train_minibatch config n a) with
    | Ok _ => True
    | Raise _ => session a' = session a ∧ train_op_feeds evs = []
    end.
Proof.
  unfold _train_minibatch, bind, call_replay_size.
  destruct (rm_size (replay_memory a) <? n).
  { simpl. repeat split; try done. eexists. split; [reflexivity|]. simpl. lia. }
  unfold call_replay_get_minibatch. simpl.
  destruct (rm_get_minibatch (replay_memory a) n) as [[nt t] rm'].
  unfold _predict_q_values, bind, gets. simpl.
  destruct (target_params a) as [tp|] eqn:Htp.
  2: { simpl. repeat split; try done. eexists.
       split; [rewrite <- app_assoc; reflexivity|]. simpl. split; [lia|done]. }
  unfold run_q_output, lift. simpl.
  destruct (max_axis1 _) as [max_q|].
  2: { simpl. repeat split; try done. eexists.
       split; [rewrite <- !app_assoc; reflexivity|]. simpl. split; [lia|done]. }
  destruct (_get_minibatch_feed_dict _ _ _ _) as [feed|].
  - simpl. repeat split; try done. eexists.
    split; [rewrite <- !app_assoc; reflexivity|]. simpl. split; [lia|done].
  - simpl. repeat split; try done. eexists.
    split; [rewrite <- !app_assoc; reflexivity|]. simpl. split; [lia|done].
Qed.

(** X3. [get_input_shape] and [_get_frame_resizer] agree on which
    environments are resized: under the id of Pong the frames go through
    [utils.resize_image] with the configured width and height and the
    input shape is width, height and frames per state; under any other
    id the frames are left as they are and the input shape is that of
    the observation space. *)
Theorem input_shape_follows_resizer (shape : list nat) (frame : Obs) :
  if bool_decide (env_spec_id = "Pong-v0"%string) then
    get_input_shape config shape =
      [resize_width config; resize_height config; frames_per_state config] ∧
    _get_frame_resizer config frame =
      resize_image frame (resize_width config) (resize_height config)
  else
    get_input_shape config shape = shape ∧
    _get_frame_resizer config frame = frame.
Proof.
  unfold get_input_shape, _get_frame_resizer, RESIZE_STATE_FRAMES.
  case_bool_decide as Hid.
  - rewrite bool_decide_eq_true_2; [done|]. rewrite Hid. by left.
  - rewrite bool_decide_eq_false_2; [done|].
    intros Hin. apply list_elem_of_singleton in Hin. done.
Qed.

End MoreTraining.

(** ** Episodes, whatever the collaborators do *)

Section MoreEpisode.
Context {E : Environment} {F : FrameBuffer Obs} {N : Network State}
        {G : Randomness} {RM : ReplayMemory State} {U : Utils Obs}.
Variable config : Config.

Ltac quietly :=
  eexists; split;
  [ simpl; rewrite <- ?app_assoc; reflexivity
  | split; [reflexivity | split; [reflexivity | repeat constructor]] ].

Lemma pick_action_quiet (state : State) :
  emits quiet (_pick_action config state).
Proof.
  intros a. rewrite pick_action_run. destruct (Qltb _ _); quietly.
Qed.

Lemma train_minibatch_quiet (n : nat) :
  emits quiet (_train_minibatch config n).
Proof.
  intros a. unfold _train_minibatch, bind, call_replay_size.
  destruct (rm_size (replay_memory a) <? n); [quietly|].
  unfold call_replay_get_minibatch. simpl.
  destruct (rm_get_minibatch (replay_memory a) n) as [[nt t] rm'].
  unfold _predict_q_values, bind, gets. simpl.
  destruct (target_params a) as [tp|]; [|quietly].
  unfold run_q_output, lift. simpl.
  destruct (max_axis1 _) as [max_q|]; [|quietly].
  destruct (_get_minibatch_feed_dict _ _ _ _); quietly.
Qed.

(** What [_pick_action] leaves alone, and what it does to the
    exploration probability. *)
Lemma pick_action_frame (state : State) (a : Agent) :
  let a' := snd (_pick_action config state a) in
  session a' = session a ∧
  replay_memory a' = replay_memory a ∧
  total_steps a' = total_steps a ∧
  frame_buffer a' = frame_buffer a ∧
  target_params a' = target_params a ∧
  random_action_prob a' = decay_step config (random_action_prob a).
Proof.
  simpl. rewrite pick_action_run. by destruct (Qltb _ _).
Qed.

Lemma stored_items_app (evs1 evs2 : list Event) :
  stored_items (evs1 ++ evs2) = stored_items evs1 ++ stored_items evs2.
Proof. apply omap_app. Qed.

(** What the loop of [train_episode] keeps, also when a call in it
    raises: it makes only calls that belong to an episode, it leaves the
    target parameters alone, the transitions it stores follow one
    another from the state it started in, and each step of the
    environment is matched by one stored transition with the overridden
    reward and the same [done] flag. *)
Lemma episode_loop_inv (fuel : nat) (state : State) (total : Q)
  (steps : nat) (a : Agent) :
  ∃ evs,
    trace (snd (episode_loop config fuel state total steps a)) =
      trace a ++ evs ∧
    Forall (λ ev, within_episode ev = true) evs ∧
    target_params (snd (episode_loop config fuel state total steps a)) =
      target_params a ∧
    chained state (stored_items evs) ∧
    map (λ item, (tr_reward item, tr_done item)) (stored_items evs) =
      map (λ step, (overridden step, step.2)) (env_steps evs).
Proof.
  revert state total steps a.
  induction fuel as [|fuel IH]; intros state total steps a.
  { exists []. simpl. by rewrite app_nil_r. }
  rewrite episode_loop_unfold.
  destruct (pick_action_quiet state a) as (evs1 & H1 & Hq1 & Hq1' & Hw1).
  destruct (pick_action_frame state a) as (_ & _ & _ & _ & Htp1 & _).
  destruct (_pick_action config state a) as [[action|e] a1];
    simpl in H1, Htp1.
  2: { exists evs1. rewrite Hq1, Hq1'. done. }
  cbv zeta.
  destruct (env_step (env a1) action) as [[[o r] d] e']. simpl.
  match goal with
  | |- context [_train_minibatch _ _ ?x] => set (a2 := x)
  end.
  set (item := mkTransition state action
                 (if d then default r (FAILURE_PENALTY !! env_spec_id) else r)
                 (fb_get_state (fb_append (frame_buffer a1) o)) d).
  assert (trace a2 =
          trace a ++ evs1 ++
          [EnvStep action o r d; FrameAppend o;
           FrameGetState (fb_get_state (fb_append (frame_buffer a1) o));
           ReplayAdd item]) as Ha2.
  { subst a2. simpl. by rewrite H1, <- !app_assoc. }
  destruct (train_minibatch_quiet (minibatch_size config) a2)
    as (evs2 & H2 & Hq2 & Hq2' & Hw2).
  pose proof (train_minibatch_target_params config (minibatch_size config) a2)
    as Htp2.
  rewrite Ha2 in H2.
  assert (target_params a2 = target_params a) as Htp2'.
  { subst a2. simpl. exact Htp1. }
  assert (∀ rest : list Event,
            env_steps rest = [] → stored_items rest = [] →
            Forall (λ ev, within_episode ev = true) rest →
            Forall (λ ev, within_episode ev = true)
              (evs1 ++
               [EnvStep action o r d; FrameAppend o;
                FrameGetState (fb_get_state (fb_append (frame_buffer a1) o));
                ReplayAdd item] ++ rest) ∧
            stored_items
              (evs1 ++
               [EnvStep action o r d; FrameAppend o;
                FrameGetState (fb_get_state (fb_append (frame_buffer a1) o));
                ReplayAdd item] ++ rest) = [item] ∧
            env_steps
              (evs1 ++
               [EnvStep action o r d; FrameAppend o;
                FrameGetState (fb_get_state (fb_append (frame_buffer a1) o));
                ReplayAdd item] ++ rest) = [(r, d)]) as Hturn.
  { intros rest Hr Hr' Hw. split; [|split].
    - apply Forall_app. split; [done|]. by repeat constructor.
    - rewrite !stored_items_app, Hq1', Hr'. done.
    - rewrite !env_steps_app, Hq1, Hr. done. }
  destruct (_train_minibatch _ _ a2) as [[[]|e] a3]; simpl in H2, Htp2.
  2: { destruct (Hturn evs2 Hq2 Hq2' Hw2) as (Hw & Hitems & Hsteps).
       eexists. split; [simpl; rewrite H2, <- !app_assoc; reflexivity|].
       split; [exact Hw|]. split; [simpl; by rewrite Htp2|].
       rewrite Hitems, Hsteps. simpl. by destruct d. }
  destruct d.
  - destruct (Hturn evs2 Hq2 Hq2' Hw2) as (Hw & Hitems & Hsteps).
    eexists. split; [simpl; rewrite H2, <- !app_assoc; reflexivity|].
    split; [exact Hw|]. split; [simpl; by rewrite Htp2|].
    rewrite Hitems, Hsteps. done.
  - match goal with
    | |- context [episode_loop _ _ ?s ?q ?k ?x] =>
        destruct (IH s q k x) as (evs3 & H3 & Hw3 & Htp3 & Hch3 & Hst3)
    end.
    rewrite H3, Htp3. simpl in *.
    exists (evs1 ++
            [EnvStep action o r false; FrameAppend o;
             FrameGetState (fb_get_state (fb_append (frame_buffer a1) o));
             ReplayAdd item] ++ evs2 ++ evs3).
    split; [rewrite H2, <- !app_assoc; reflexivity|].
    split.
    { apply Forall_app. split; [done|].
      repeat (constructor; [done|]). by apply Forall_app. }
    split; [by rewrite Htp2|].
    rewrite !stored_items_app, !env_steps_app, Hq1, Hq1', Hq2, Hq2'.
    simpl. split; [done|]. by rewrite Hst3.
Qed.

Lemma within_episode_counts (evs : list Event) :
  Forall (λ ev, within_episode ev = true) evs →
  sync_count evs = 0 ∧ logged_episodes evs = [] ∧ reset_observations evs = [].
Proof.
  unfold sync_count, logged_episodes, reset_observations.
  induction 1 as [|ev evs Hev _ (IH1 & IH2 & IH3)]; [done|].
  destruct ev; simpl in *; try done.
Qed.

(** [train_episode] as a whole, also when a call in it raises. *)
Lemma train_episode_inv (max_steps : nat) (a : Agent) :
  let o := (env_reset (env a)).1 in
  let s0 := fb_get_state (fb_append (frame_buffer a) o) in
  ∃ evs,
    trace (snd (train_episode config max_steps a)) =
      trace a ++ EnvReset o :: FrameAppend o :: FrameGetState s0 :: evs ∧
    Forall (λ ev, within_episode ev = true) evs ∧
    target_params (snd (train_episode config max_steps a)) = target_params a ∧
    chained s0 (stored_items evs) ∧
    map (λ item, (tr_reward item, tr_done item)) (stored_items evs) =
      map (λ step, (overridden step, step.2)) (env_steps evs).
Proof.
  intros o s0. rewrite train_episode_unfold. cbv zeta. fold o. fold s0.
  match goal with
  | |- context [episode_loop _ _ ?s ?q ?k ?x] =>
      destruct (episode_loop_inv max_steps s q k x)
        as (evs & H & Hw & Htp & Hch & Hst)
  end.
  exists evs. rewrite H, Htp. simpl. rewrite <- !app_assoc. done.
Qed.

(** X4. Within [train_episode] the target parameters are never
    assigned and [_update_target_network] is never called, however many
    steps and gradient updates the episode makes and however it ends. *)
Theorem train_episode_keeps_target_network (max_steps : nat) (a : Agent) :
  target_params (snd (train_episode config max_steps a)) = target_params a ∧
  sync_count (trace (snd (train_episode config max_steps a))) =
    sync_count (trace a).
Proof.
  destruct (train_episode_inv max_steps a) as (evs & H & Hw & Htp & _).
  split; [exact Htp|]. rewrite H.
  destruct (within_episode_counts evs Hw) as (Hsync & _).
  unfold sync_count in *.
  match goal with
  | |- context [?x :: ?y :: ?z :: evs] =>
      change (x :: y :: z :: evs) with ([x; y; z] ++ evs)
  end.
  rewrite !omap_app, !length_app, Hsync. simpl. lia.
Qed.

(** X5. The transitions [train_episode] hands to the replay memory
    follow one another: the first starts in the state exposed after the
    reset and each next one starts in the state the one before it ended
    in. There is one of them for each step of the environment, in order,
    with the [done] flag of that step and its reward after the override.
    This holds also when the episode is cut short by an exception. *)
Theorem episode_transitions_chain (max_steps : nat) (a : Agent) :
  let o := (env_reset (env a)).1 in
  let s0 := fb_get_state (fb_append (frame_buffer a) o) in
  ∃ evs,
    trace (snd (train_episode config max_steps a)) = trace a ++ evs ∧
    chained s0 (stored_items evs) ∧
    map (λ item, (tr_reward item, tr_done item)) (stored_items evs) =
      map (λ step : Q * bool,
             (if step.2 then default step.1 (FAILURE_PENALTY !! env_spec_id)
              else step.1, step.2))
          (env_steps evs).
Proof.
  intros o s0.
  destruct (train_episode_inv max_steps a) as (evs & H & _ & _ & Hch & Hst).
  eexists. split; [exact H|]. split; [exact Hch|exact Hst].
Qed.

(** X6. Under an environment id other than the one in
    [FAILURE_PENALTY], the lookup falls back on its default: every
    transition of an episode is stored with the reward the environment
    returned, terminal or not. *)
Theorem unregistered_environment_keeps_rewards (max_steps : nat) (a : Agent) :
  env_spec_id ≠ "CartPole-v0"%string →
  ∃ evs,
    trace (snd (train_episode config max_steps a)) = trace a ++ evs ∧
    map tr_reward (stored_items evs) = raw_rewards evs.
Proof.
  intros Hid.
  destruct (train_episode_inv max_steps a) as (evs & H & _ & _ & _ & Hst).
  eexists. split; [exact H|].
  change (map tr_reward (stored_items evs) = raw_rewards evs).
  assert (FAILURE_PENALTY !! env_spec_id = None) as Hnone.
  { unfold FAILURE_PENALTY. apply lookup_singleton_ne. congruence. }
  apply (f_equal (map fst)) in Hst. rewrite !map_map in Hst.
  change (map tr_reward (stored_items evs) = map overridden (env_steps evs))
    in Hst.
  rewrite Hst. clear Hst H. unfold raw_rewards.
  induction (env_steps evs) as [|[r d] l IH]; [done|].
  simpl. rewrite IH. f_equal. unfold overridden. simpl.
  rewrite Hnone. by destruct d.
Qed.

(** The loop of [train_episode] under a network that keeps its
    contract: how far it goes, and what advances with it. *)
Lemma episode_loop_counts (fuel : nat) (state : State) (total : Q)
  (steps : nat) (a : Agent) :
  batch_shaped → 0 < action_space_n → is_Some (target_params a) →
  ∃ (evs : list Event) (total' : Q),
    fst (episode_loop config fuel state total steps a) =
      Ok (total', steps + length (env_steps evs)) ∧
    trace (snd (episode_loop config fuel state total steps a)) =
      trace a ++ evs ∧
    length (env_steps evs) ≤ fuel ∧
    total_steps (snd (episode_loop config fuel state total steps a)) =
      total_steps a + length (env_steps evs) ∧
    random_action_prob (snd (episode_loop config fuel state total steps a)) =
      Nat.iter (length (env_steps evs)) (decay_step config)
               (random_action_prob a) ∧
    (∀ (i : nat) (s : Q * bool),
       env_steps evs !! i = Some s → S i < length (env_steps evs) →
       s.2 = false) ∧
    (length (env_steps evs) < fuel →
     ∃ r, last (env_steps evs) = Some (r, true)).
Proof.
  intros Hshape Hn. revert state total steps a.
  induction fuel as [|fuel IH]; intros state total steps a Htp.
  { exists [], total. simpl. rewrite Nat.add_0_r, app_nil_r.
    repeat split; try done; lia. }
  rewrite episode_loop_unfold.
  destruct (pick_action_quiet state a) as (evs1 & H1 & Hq1 & _ & _).
  destruct (pick_action_returns config state a Hshape Hn) as [action Hact].
  destruct (pick_action_frame state a) as (_ & _ & Hts1 & _ & Htp1 & Hp1).
  destruct (_pick_action config state a) as [r1 a1].
  simpl in H1, Hact, Hts1, Htp1, Hp1. subst r1. cbv zeta.
  destruct (env_step (env a1) action) as [[[o r] d] e']. simpl.
  match goal with
  | |- context [_train_minibatch _ _ ?x] => set (a2 := x)
  end.
  assert (∃ item, trace a2 =
            trace a ++ evs1 ++
            [EnvStep action o r d; FrameAppend o;
             FrameGetState (fb_get_state (fb_append (frame_buffer a1) o));
             ReplayAdd item]) as [item Ha2].
  { eexists. subst a2. simpl. by rewrite H1, <- !app_assoc. }
  assert (is_Some (target_params a2)) as Htp2.
  { subst a2. simpl. by rewrite Htp1. }
  assert (total_steps a2 = total_steps a) as Hts2.
  { subst a2. simpl. exact Hts1. }
  assert (random_action_prob a2 = decay_step config (random_action_prob a))
    as Hp2.
  { subst a2. simpl. exact Hp1. }
  pose proof (train_minibatch_returns config (minibatch_size config) a2
                Hshape Hn Htp2) as Hret.
  destruct (train_minibatch_quiet (minibatch_size config) a2)
    as (evs2 & H2 & Hq2 & _ & _).
  destruct (train_minibatch_frame config (minibatch_size config) a2)
    as (_ & Hts3 & Hp3 & _ & Htp3 & _).
  rewrite Ha2 in H2. rewrite Hts2 in Hts3. rewrite Hp2 in Hp3.
  destruct (_train_minibatch _ _ a2) as [r3 a3].
  simpl in Hret, H2, Hts3, Hp3, Htp3. subst r3.
  destruct d.
  - exists (evs1 ++
            [EnvStep action o r true; FrameAppend o;
             FrameGetState (fb_get_state (fb_append (frame_buffer a1) o));
             ReplayAdd item] ++ evs2), (total + r)%Q.
    rewrite !env_steps_app, Hq1, Hq2. simpl.
    split; [by rewrite Nat.add_1_r|].
    split; [rewrite H2, <- !app_assoc; reflexivity|].
    split; [lia|]. split; [rewrite Hts3; lia|].
    split; [by rewrite Hp3|].
    split; [intros i s _ Hi; lia|]. eauto.
  - match goal with
    | |- context [episode_loop _ _ ?s ?q ?k ?x] =>
        destruct (IH s q k x)
          as (evs3 & total' & Hfst & H3 & Hle & Hts & Hp & Hdone & Hlast)
    end.
    { simpl. rewrite Htp3. exact Htp2. }
    simpl in Hts, Hp.
    exists (evs1 ++
            [EnvStep action o r false; FrameAppend o;
             FrameGetState (fb_get_state (fb_append (frame_buffer a1) o));
             ReplayAdd item] ++ evs2 ++ evs3), total'.
    rewrite !env_steps_app, Hq1, Hq2. simpl.
    split; [rewrite Hfst; do 2 f_equal; lia|].
    split; [rewrite H3; simpl; rewrite H2, <- !app_assoc; reflexivity|].
    split; [lia|]. split; [rewrite Hts, Hts3; lia|].
    split.
    { rewrite Hp, Hp3. symmetry.
      exact (Nat.iter_succ_r _ (decay_step config) _). }
    split.
    + intros [|i] s Hs Hi; simpl in Hs.
      * by inversion Hs.
      * apply (Hdone i s Hs). lia.
    + intros Hlt. destruct Hlast as [r' Hr']; [lia|].
      exists r'. by rewrite last_cons, Hr'.
Qed.

(** [train_episode] under a network that keeps its contract: how far it
    goes, and what advances with it. *)
Lemma train_episode_counts (max_steps : nat) (a : Agent) :
  batch_shaped → 0 < action_space_n → is_Some (target_params a) →
  ∃ (evs : list Event) (total : Q) (steps : nat),
    fst (train_episode config max_steps a) = Ok (total, steps) ∧
    trace (snd (train_episode config max_steps a)) = trace a ++ evs ∧
    steps = length (env_steps evs) ∧
    steps ≤ max_steps ∧
    total_steps (snd (train_episode config max_steps a)) =
      total_steps a + steps ∧
    random_action_prob (snd (train_episode config max_steps a)) =
      Nat.iter steps
        (λ p, decay p (min_random_action_prob config)
                      (random_action_prob_decay config))
        (random_action_prob a) ∧
    (∀ (i : nat) (s : Q * bool),
       env_steps evs !! i = Some s → S i < steps → s.2 = false) ∧
    (steps < max_steps → ∃ r, last (env_steps evs) = Some (r, true)).
Proof.
  intros Hshape Hn Htp. rewrite train_episode_unfold. cbv zeta.
  match goal with
  | |- context [episode_loop _ _ ?s ?q ?k ?x] =>
      destruct (episode_loop_counts max_steps s q k x Hshape Hn)
        as (evs & total' & Hfst & H & Hle & Hts & Hp & Hdone & Hlast);
        [exact Htp|]
  end.
  simpl in Hts, Hp.
  match type of H with
  | _ = trace (log ?e3 (log ?e2 (_ (log ?e1 _)))) ++ _ =>
      exists ([e1; e2; e3] ++ evs)
  end.
  exists total', (length (env_steps evs)).
  rewrite Hfst, H, Hts, Hp. simpl. rewrite <- !app_assoc.
  repeat split; try done.
Qed.


End MoreEpisode.

(** ** The training driver *)

Section MoreTrain.
Context {E : Environment} {F : FrameBuffer Obs} {N : Network State}
        {G : Randomness} {RM : ReplayMemory State} {U : Utils Obs}.
Variable config : Config.

Lemma sync_count_app (evs1 evs2 : list Event) :
  sync_count (evs1 ++ evs2) = sync_count evs1 + sync_count evs2.
Proof. unfold sync_count. by rewrite omap_app, length_app. Qed.

Lemma logged_episodes_app (evs1 evs2 : list Event) :
  logged_episodes (evs1 ++ evs2) = logged_episodes evs1 ++ logged_episodes evs2.
Proof. apply omap_app. Qed.

(** The events of one [train_episode]: no synchronisation and nothing
    logged. *)
Lemma train_episode_events (max_steps : nat) (a : Agent) :
  ∃ evs,
    trace (snd (train_episode config max_steps a)) = trace a ++ evs ∧
    sync_count evs = 0 ∧ logged_episodes evs = [] ∧
    target_params (snd (train_episode config max_steps a)) = target_params a.
Proof.
  destruct (train_episode_inv config max_steps a)
    as (evs & H & Hw & Htp & _).
  destruct (within_episode_counts evs Hw) as (Hsync & Hlog & _).
  eexists. split; [exact H|]. split; [|split; [|exact Htp]].
  - match goal with
    | |- context [?x :: ?y :: ?z :: evs] =>
        change (x :: y :: z :: evs) with ([x; y; z] ++ evs)
    end.
    rewrite sync_count_app, Hsync. done.
  - match goal with
    | |- context [?x :: ?y :: ?z :: evs] =>
        change (x :: y :: z :: evs) with ([x; y; z] ++ evs)
    end.
    rewrite logged_episodes_app, Hlog. done.
Qed.

(** X8. However [train] goes, with or without a supervisor and whether
    it returns or raises, it logs at most [num_episodes] episodes and
    calls [_update_target_network] at most once for each episode it
    logs. *)
Theorem train_synchronises_at_most_once_per_episode
  (remaining episode max_steps : nat) (supervisor : option (nat → bool))
  (a : Agent) :
  ∃ evs,
    trace (snd (train_loop config remaining episode max_steps supervisor a)) =
      trace a ++ evs ∧
    sync_count evs ≤ length (logged_episodes evs) ∧
    length (logged_episodes evs) ≤ remaining.
Proof.
  revert episode a.
  induction remaining as [|remaining IH]; intros episode a.
  { exists []. simpl. by rewrite app_nil_r. }
  rewrite train_loop_unfold.
  destruct (train_episode_events max_steps a) as (evs1 & H1 & Hs1 & Hl1 & _).
  destruct (train_episode config max_steps a) as [[[reward steps]|e] a1];
    simpl in H1.
  2: { exists evs1. rewrite Hs1, Hl1. simpl. split; [done|]. lia. }
  cbv zeta.
  destruct (bool_decide (target_update_freq config = 0%Z)).
  { exists (evs1 ++ [LogEpisode reward steps]). simpl.
    rewrite H1, <- app_assoc, sync_count_app, logged_episodes_app, Hs1, Hl1.
    simpl. split; [done|]. unfold sync_count. simpl. lia. }
  match goal with
  | |- context [train_loop _ _ _ _ None ?x] => set (a3 := x)
  end.
  assert (∃ evs, trace a3 = trace a ++ evs1 ++ LogEpisode reward steps :: evs ∧
                 sync_count evs ≤ 1 ∧ logged_episodes evs = [])
    as (evs3 & H3 & Hs3 & Hl3).
  { subst a3. destruct (bool_decide (_ = 0%Z)); simpl.
    - exists [RunParams]. rewrite H1, <- !app_assoc. done.
    - exists []. rewrite H1, <- !app_assoc. unfold sync_count. simpl.
      split; [done|]. split; [lia|done]. }
  assert (∀ rest : list Event,
            sync_count rest ≤ length (logged_episodes rest) →
            length (logged_episodes rest) ≤ remaining →
            sync_count (evs1 ++ LogEpisode reward steps :: evs3 ++ rest) ≤
              length (logged_episodes
                        (evs1 ++ LogEpisode reward steps :: evs3 ++ rest)) ∧
            length (logged_episodes
                      (evs1 ++ LogEpisode reward steps :: evs3 ++ rest)) ≤
              S remaining) as Hcount.
  { intros rest Hr Hr'.
    change (LogEpisode reward steps :: evs3 ++ rest)
      with ([LogEpisode reward steps] ++ evs3 ++ rest).
    rewrite !sync_count_app, !logged_episodes_app, !length_app, Hs1, Hl1, Hl3.
    change (sync_count [LogEpisode reward steps]) with 0.
    change (logged_episodes [LogEpisode reward steps]) with [(reward, steps)].
    simpl. lia. }
  destruct supervisor as [should_stop|].
  - destruct (should_stop episode) eqn:Hstop.
    + exists (evs1 ++ LogEpisode reward steps :: evs3 ++ [ShouldStop true]).
      split; [simpl; rewrite H3, <- !app_assoc; reflexivity|].
      apply Hcount; [done | simpl; lia].
    + match goal with
      | |- context [train_loop _ _ ?k _ _ ?x] =>
          destruct (IH k x) as (evs4 & H4 & Hs4 & Hl4)
      end.
      exists (evs1 ++ LogEpisode reward steps :: evs3 ++
              ShouldStop false :: evs4).
      split; [rewrite H4; simpl; rewrite H3, <- !app_assoc; reflexivity|].
      apply (Hcount (ShouldStop false :: evs4)); done.
  - destruct (IH (S episode) a3) as (evs4 & H4 & Hs4 & Hl4).
    exists (evs1 ++ LogEpisode reward steps :: evs3 ++ evs4).
    split; [rewrite H4, H3, <- !app_assoc; reflexivity|].
    by apply Hcount.
Qed.

(** The loop of [train] stops after the episode at which the supervisor
    asks it to. *)
Lemma train_loop_stops (k m episode max_steps : nat) (should_stop : nat → bool)
  (a : Agent) :
  should_stop (episode + k) = true →
  train_loop config (S k + m) episode max_steps (Some should_stop) a =
  train_loop config (S k) episode max_steps (Some should_stop) a.
Proof.
  revert episode a. induction k as [|k IH]; intros episode a Hstop.
  - rewrite Nat.add_0_r in Hstop.
    change (1 + m) with (S m). rewrite !train_loop_unfold.
    destruct (train_episode config max_steps a) as [[[reward steps]|e] a1];
      [|done].
    cbv zeta. destruct (bool_decide (target_update_freq config = 0%Z)); [done|].
    by rewrite Hstop.
  - change (S (S k) + m) with (S (S k + m)). rewrite !train_loop_unfold.
    destruct (train_episode config max_steps a) as [[[reward steps]|e] a1];
      [|done].
    cbv zeta. destruct (bool_decide (target_update_freq config = 0%Z)); [done|].
    destruct (should_stop episode); [done|].
    apply IH. by replace (S episode + k) with (episode + S k) by lia.
Qed.

(** X9. When the supervisor answers [should_stop()] with true after the
    episode of index [k], [train] ends there: asked for more episodes
    than [k + 1] it does exactly what it does when asked for [k + 1]. *)
Theorem train_stops_when_asked (k m max_steps : nat)
  (should_stop : nat → bool) (a : Agent) :
  should_stop k = true →
  train config (S k + m) max_steps (Some should_stop) a =
  train config (S k) max_steps (Some should_stop) a.
Proof.
  intros Hstop. unfold train. by apply train_loop_stops.
Qed.



End MoreTrain.

(** ** Action selection, further *)

(** [argmax_from] returns the index of the first largest entry of the
    entries seen so far followed by the ones still to come. *)
Lemma argmax_from_spec (l pre : list Q) (best : Q) (best_i : nat) :
  pre !! best_i = Some best →
  Forall (λ x, (x <= best)%Q) pre →
  (∀ (j : nat) (x : Q), j < best_i → pre !! j = Some x → (x < best)%Q) →
  ∃ q,
    (pre ++ l) !! argmax_from best best_i (length pre) l = Some q ∧
    Forall (λ x, (x <= q)%Q) (pre ++ l) ∧
    (∀ (j : nat) (x : Q),
       j < argmax_from best best_i (length pre) l →
       (pre ++ l) !! j = Some x → (x < q)%Q).
Proof.
  revert pre best best_i.
  induction l as [|y l IH]; intros pre best best_i Hbest Hall Hfirst.
  - simpl. rewrite app_nil_r. eauto.
  - simpl.
    replace (S (length pre)) with (length (pre ++ [y]))
      by (rewrite length_app; simpl; lia).
    replace (pre ++ y :: l) with ((pre ++ [y]) ++ l)
      by (by rewrite <- app_assoc).
    destruct (Qltb best y) eqn:Hcmp.
    + apply Qltb_lt in Hcmp.
      replace (length (pre ++ [y])) with (S (length pre)) at 1 3
        by (rewrite length_app; simpl; lia).
      replace (S (length pre)) with (length (pre ++ [y]))
        by (rewrite length_app; simpl; lia).
      apply IH.
      * by rewrite lookup_app_r, Nat.sub_diag.
      * apply Forall_app. split.
        -- eapply Forall_impl; [exact Hall|]. intros x Hx. simpl in Hx.
           apply Qlt_le_weak. by eapply Qle_lt_trans.
        -- constructor; [apply Qle_refl|constructor].
      * intros j x Hj Hx. rewrite lookup_app_l in Hx by done.
        apply list_elem_of_lookup_2 in Hx.
        rewrite Forall_forall in Hall.
        eapply Qle_lt_trans; [by apply Hall|done].
    + apply Qltb_ge in Hcmp.
      apply IH.
      * rewrite lookup_app_l; [done|]. by eapply lookup_lt_Some.
      * apply Forall_app. split; [done|]. by constructor.
      * intros j x Hj Hx. apply (Hfirst j x Hj).
        rewrite lookup_app_l in Hx; [done|].
        apply lookup_lt_Some in Hbest. lia.
Qed.

Section MoreExploration.
Context {E : Environment} {F : FrameBuffer Obs} {N : Network State}
        {G : Randomness} {RM : ReplayMemory State} {U : Utils Obs}.
Variable config : Config.

(** X12. Calls of [_pick_action] compose: after the [k+1]-th of any
    series of calls the exploration probability is [utils.decay] applied
    [k+1] times to the probability before the first, whatever the
    states, the numbers drawn, the branches taken and the outcomes of
    the calls. *)
Theorem prob_trajectory_iterates_decay (states : list State) (a : Agent) :
  prob_trajectory config states a =
  map (λ k, Nat.iter (S k)
              (λ p, decay p (min_random_action_prob config)
                            (random_action_prob_decay config))
              (random_action_prob a))
      (seq 0 (length states)).
Proof.
  revert a. induction states as [|s states IH]; intros a; [done|].
  simpl. rewrite IH, pick_action_prob. f_equal.
  rewrite <- seq_shift, map_map.
  apply map_ext. intros k. symmetry.
  exact (Nat.iter_succ_r (S k) _ _).
Qed.

(** X13. On the greedy branch, that is when the number drawn is not
    below the decayed probability, [_pick_action] evaluates the network
    under the parameters in the session on the one current state and,
    given one row of q-values that is not empty, returns the index of
    the first largest entry of that row. *)
Theorem greedy_action_is_first_maximum (state : State) (a : Agent)
  (row : list Q) :
  q_output (session a) [state] = [row] →
  row ≠ [] →
  Qltb (random_random (random_state a)).1
       (decay (random_action_prob a) (min_random_action_prob config)
              (random_action_prob_decay config)) = false →
  ∃ (action : Action) (q : Q),
    fst (_pick_action config state a) = Ok action ∧
    row !! action = Some q ∧
    Forall (λ x, (x <= q)%Q) row ∧
    (∀ (j : nat) (x : Q), j < action → row !! j = Some x → (x < q)%Q).
Proof.
  intros Hrow Hne Hgreedy. rewrite pick_action_run. cbv zeta.
  rewrite Hgreedy. simpl. rewrite Hrow. unfold argmax. simpl.
  rewrite app_nil_r. destruct row as [|x row]; [done|].
  destruct (argmax_from_spec row [x] x 0) as (q & Hq & Hall & Hfirst).
  - done.
  - constructor; [apply Qle_refl|constructor].
  - intros j y Hj. lia.
  - exists (argmax_from x 0 1 row), q. done.
Qed.

End MoreExploration.

(** ** The further statements on the small instance *)

Section MoreCartPole.
#[local] Existing Instance cartpole.
#[local] Existing Instance cartpole_frames.
#[local] Existing Instance cartpole_network.
#[local] Existing Instance alternating_random.
#[local] Existing Instance cartpole_replay.
#[local] Existing Instance cartpole_utils.


Lemma train_stops_when_asked_witness :
  train (small_config 2) (1 + 2) 3 (Some (λ _, true)) cartpole_agent =
  train (small_config 2) 1 3 (Some (λ _, true)) cartpole_agent.
Proof.
  exact (train_stops_when_asked (small_config 2) 0 2 3 (λ _, true)
           cartpole_agent eq_refl).
Defined.



Lemma greedy_action_is_first_maximum_witness :
  ∃ (action : Action) (q : Q),
    fst (_pick_action (small_config 2) ([0] : @State _ cartpole_frames)
           cartpole_agent_greedy) = Ok action ∧
    [0%Q; 1%Q] !! action = Some q ∧
    Forall (λ x, (x <= q)%Q) [0%Q; 1%Q] ∧
    (∀ (j : nat) (x : Q),
       j < action → [0%Q; 1%Q] !! j = Some x → (x < q)%Q).
Proof.
  apply (greedy_action_is_first_maximum (small_config 2)
           ([0] : @State _ cartpole_frames) cartpole_agent_greedy [0%Q; 1%Q]).
  - reflexivity.
  - discriminate.
  - reflexivity.
Defined.

End MoreCartPole.

Section MoreMountain.
#[local] Existing Instance mountain.
#[local] Existing Instance mountain_frames.
#[local] Existing Instance mountain_network.
#[local] Existing Instance alternating_random.
#[local] Existing Instance mountain_replay.
#[local] Existing Instance mountain_utils.

Lemma unregistered_environment_keeps_rewards_witness :
  ∃ evs,
    trace (snd (train_episode (small_config 2) 3 mountain_agent)) =
      trace mountain_agent ++ evs ∧
    map tr_reward (stored_items evs) = raw_rewards evs.
Proof.
  apply (unregistered_environment_keeps_rewards (small_config 2) 3
           mountain_agent).
  discriminate.
Defined.

(** That episode ends on its third step, which reports [done], and its
    three transitions are stored with the reward [1] of the environment. *)
Example mountain_first_episode :
  let evs := trace (snd (train_episode (small_config 2) 3 mountain_agent)) in
  env_steps evs = [(1%Q, false); (1%Q, false); (1%Q, true)] ∧
  stored_rewards evs = [1%Q; 1%Q; 1%Q].
Proof. vm_compute. split; reflexivity. Qed.

End MoreMountain.

(** ** Episodes: the frame buffer and the gradient updates *)

Section MoreEpisodeFrames.
Context {E : Environment} {F : FrameBuffer Obs} {N : Network State}
        {G : Randomness} {RM : ReplayMemory State} {U : Utils Obs}.
Variable config : Config.

Lemma observations_app (evs1 evs2 : list Event) :
  observations (evs1 ++ evs2) = observations evs1 ++ observations evs2.
Proof. apply omap_app. Qed.

Lemma train_op_feeds_app (evs1 evs2 : list Event) :
  train_op_feeds (evs1 ++ evs2) = train_op_feeds evs1 ++ train_op_feeds evs2.
Proof. apply omap_app. Qed.

Lemma quiet_observations (evs : list Event) :
  quiet evs → observations evs = [].
Proof.
  intros (Hsteps & _ & Hw). unfold observations, env_steps in *.
  induction Hw as [|ev evs Hev _ IH]; [done|].
  destruct ev; simpl in *; try done; by apply IH.
Qed.

Lemma pick_action_feeds (state : State) :
  emits (λ evs, train_op_feeds evs = []) (_pick_action config state).
Proof.
  intros a. rewrite pick_action_run.
  destruct (Qltb _ _); eexists;
    (split; [simpl; rewrite <- ?app_assoc; reflexivity | reflexivity]).
Qed.

(** The loop of [train_episode], also when a call in it raises: the
    frame buffer is what the observations of the steps, appended in
    order, make of it, and [train_op] has run at most once for each step
    of the environment. *)
Lemma episode_loop_frames (fuel : nat) (state : State) (total : Q)
  (steps : nat) (a : Agent) :
  ∃ evs,
    trace (snd (episode_loop config fuel state total steps a)) =
      trace a ++ evs ∧
    frame_buffer (snd (episode_loop config fuel state total steps a)) =
      fold_left fb_append (observations evs) (frame_buffer a) ∧
    length (train_op_feeds evs) ≤ length (env_steps evs).
Proof.
  revert state total steps a.
  induction fuel as [|fuel IH]; intros state total steps a.
  { exists []. simpl. by rewrite app_nil_r. }
  rewrite episode_loop_unfold.
  destruct (pick_action_quiet config state a) as (evs1 & H1 & Hq1).
  destruct (pick_action_feeds state a) as (evs1' & H1' & Hf1).
  assert (evs1' = evs1) as ->.
  { rewrite H1 in H1'. by apply app_inv_head in H1'. }
  pose proof (quiet_observations evs1 Hq1) as Ho1.
  destruct Hq1 as (Hs1 & _ & _).
  destruct (pick_action_frame config state a) as (_ & _ & _ & Hfb1 & _).
  destruct (_pick_action config state a) as [[action|e] a1];
    simpl in H1, Hfb1.
  2: { exists evs1. simpl. rewrite Ho1, Hf1, Hs1. done. }
  cbv zeta.
  destruct (env_step (env a1) action) as [[[o r] d] e']. simpl.
  match goal with
  | |- context [_train_minibatch _ _ ?x] => set (a2 := x)
  end.
  assert (∃ item, trace a2 =
            trace a ++ evs1 ++
            [EnvStep action o r d; FrameAppend o;
             FrameGetState (fb_get_state (fb_append (frame_buffer a1) o));
             ReplayAdd item]) as [item Ha2].
  { eexists. subst a2. simpl. by rewrite H1, <- !app_assoc. }
  assert (frame_buffer a2 = fb_append (frame_buffer a) o) as Hfb2.
  { subst a2. simpl. by rewrite Hfb1. }
  destruct (train_minibatch_quiet config (minibatch_size config) a2)
    as (evs2 & H2 & Hq2).
  destruct (train_minibatch_frame config (minibatch_size config) a2)
    as (_ & _ & _ & Hfb3 & _ & evs2' & H2' & Hf2 & _).
  assert (evs2' = evs2) as ->.
  { rewrite H2 in H2'. by apply app_inv_head in H2'. }
  pose proof (quiet_observations evs2 Hq2) as Ho2.
  destruct Hq2 as (Hs2 & _ & _).
  rewrite Ha2 in H2. rewrite Hfb2 in Hfb3.
  assert (∀ rest : list Event,
            observations
              (evs1 ++
               [EnvStep action o r d; FrameAppend o;
                FrameGetState (fb_get_state (fb_append (frame_buffer a1) o));
                ReplayAdd item] ++ evs2 ++ rest) = o :: observations rest ∧
            length (train_op_feeds
              (evs1 ++
               [EnvStep action o r d; FrameAppend o;
                FrameGetState (fb_get_state (fb_append (frame_buffer a1) o));
                ReplayAdd item] ++ evs2 ++ rest)) ≤
            1 + length (train_op_feeds rest) ∧
            length (env_steps
              (evs1 ++
               [EnvStep action o r d; FrameAppend o;
                FrameGetState (fb_get_state (fb_append (frame_buffer a1) o));
                ReplayAdd item] ++ evs2 ++ rest)) =
            1 + length (env_steps rest)) as Hturn.
  { intros rest. split; [|split].
    - rewrite !observations_app, Ho1, Ho2. done.
    - rewrite !train_op_feeds_app, Hf1, !length_app. simpl. lia.
    - rewrite !env_steps_app, Hs1, Hs2. done. }
  destruct (_train_minibatch _ _ a2) as [[[]|e] a3]; simpl in H2, Hfb3.
  2: { destruct (Hturn []) as (Hobs & Hfeeds & Hsteps).
       rewrite !app_nil_r in *.
       eexists. split; [simpl; rewrite H2, <- !app_assoc; reflexivity|].
       rewrite Hobs. simpl in *. split; [exact Hfb3|]. lia. }
  destruct d.
  - destruct (Hturn []) as (Hobs & Hfeeds & Hsteps).
    rewrite !app_nil_r in *.
    eexists. split; [simpl; rewrite H2, <- !app_assoc; reflexivity|].
    rewrite Hobs. simpl in *. split; [exact Hfb3|]. lia.
  - match goal with
    | |- context [episode_loop _ _ ?s ?q ?k ?x] =>
        destruct (IH s q k x) as (evs3 & H3 & Hfb & Hfeeds3)
    end.
    destruct (Hturn evs3) as (Hobs & Hfeeds & Hsteps).
    eexists.
    split; [rewrite H3; simpl; rewrite H2, <- !app_assoc; reflexivity|].
    rewrite Hobs, Hfb. simpl in *. split; [by rewrite Hfb3|]. lia.
Qed.

(** X14. Through an episode, however it ends, the frame buffer is what
    [append] makes of it when given the observation of the reset and
    then the observation of each step, in order and once each; nothing
    else in the episode touches it. *)
Theorem episode_appends_every_observation (max_steps : nat) (a : Agent) :
  ∃ evs,
    trace (snd (train_episode config max_steps a)) = trace a ++ evs ∧
    head (observations evs) = Some (env_reset (env a)).1 ∧
    frame_buffer (snd (train_episode config max_steps a)) =
      fold_left fb_append (observations evs) (frame_buffer a).
Proof.
  rewrite train_episode_unfold. cbv zeta.
  match goal with
  | |- context [episode_loop _ _ ?s ?q ?k ?x] =>
      destruct (episode_loop_frames max_steps s q k x) as (evs & H & Hfb & _)
  end.
  match type of H with
  | _ = trace (log ?e3 (log ?e2 (_ (log ?e1 _)))) ++ _ =>
      exists ([e1; e2; e3] ++ evs)
  end.
  rewrite H, Hfb. simpl. rewrite <- !app_assoc. done.
Qed.

(** X15. In an episode, however it ends, [train_op] runs at most once
    for each step of the environment. *)
Theorem episode_trains_at_most_once_per_step (max_steps : nat) (a : Agent) :
  ∃ evs,
    trace (snd (train_episode config max_steps a)) = trace a ++ evs ∧
    length (train_op_feeds evs) ≤ length (env_steps evs).
Proof.
  rewrite train_episode_unfold. cbv zeta.
  match goal with
  | |- context [episode_loop _ _ ?s ?q ?k ?x] =>
      destruct (episode_loop_frames max_steps s q k x) as (evs & H & _ & Hle)
  end.
  match type of H with
  | _ = trace (log ?e3 (log ?e2 (_ (log ?e1 _)))) ++ _ =>
      exists ([e1; e2; e3] ++ evs)
  end.
  rewrite H. simpl. rewrite <- !app_assoc. done.
Qed.

End MoreEpisodeFrames.

(** ** The target parameters, from construction on *)

Section MoreTarget.
Context {E : Environment} {F : FrameBuffer Obs} {N : Network State}
        {G : Randomness} {RM : ReplayMemory State} {U : Utils Obs}.
Variable config : Config.

Lemma train_loop_keeps_target_set (remaining episode max_steps : nat)
  (supervisor : option (nat → bool)) (a : Agent) :
  is_Some (target_params a) →
  is_Some (target_params
             (snd (train_loop config remaining episode max_steps supervisor a))).
Proof.
  revert episode a. induction remaining as [|remaining IH];
    intros episode a Htp; [done|].
  rewrite train_loop_unfold.
  destruct (train_episode_events config max_steps a) as (_ & _ & _ & _ & Htp1).
  destruct (train_episode config max_steps a) as [[[reward steps]|e] a1];
    simpl in Htp1; [|simpl; by rewrite Htp1].
  cbv zeta.
  destruct (bool_decide (target_update_freq config = 0%Z));
    [simpl; by rewrite Htp1|].
  match goal with
  | |- context [train_loop _ _ _ _ None ?x] => set (a3 := x)
  end.
  assert (is_Some (target_params a3)) as Htp3.
  { subst a3. destruct (bool_decide (_ = 0%Z)); simpl;
      [by eexists | by rewrite Htp1]. }
  destruct supervisor as [should_stop|]; [|by apply IH].
  destruct (should_stop episode); [done|]. by apply IH.
Qed.

(** X16. From [__init__] on the target parameters are set: a new agent
    holds as target parameters the parameters of the session it was
    given, and whatever [train] then does, and however it ends, they are
    still set afterwards; [_predict_q_values] under the target network
    is never left without them. *)
Theorem target_params_always_set (env0 : EnvSt) (session0 : Params)
  (replay0 : Replay) (random0 : Rng) (num_episodes max_steps : nat)
  (supervisor : option (nat → bool)) :
  let a := __init__ config env0 session0 replay0 random0 in
  target_params a = Some session0 ∧
  is_Some (target_params
             (snd (train config num_episodes max_steps supervisor a))).
Proof.
  intros a. split; [done|].
  apply train_loop_keeps_target_set. by eexists.
Qed.

End MoreTarget.

(** ** The reward of an episode and the run of the environment *)

Section EpisodeReward.
Context {E : Environment} {F : FrameBuffer Obs} {N : Network State}
        {G : Randomness} {RM : ReplayMemory State} {U : Utils Obs}.
Variable config : Config.

Lemma env_run_app (evs1 evs2 : list Event) (e e1 e2 : EnvSt) :
  env_run e evs1 e1 → env_run e1 evs2 e2 → env_run e (evs1 ++ evs2) e2.
Proof.
  revert e. induction evs1 as [|ev evs1 IH]; intros e H1 H2.
  - simpl in *. by subst.
  - destruct ev; simpl in *;
      try (destruct H1 as [Hev H1]; split; [exact Hev|]); by eapply IH.
Qed.

(** A solved run of the environment: the events are read off the goal. *)
Ltac ran :=
  eexists; split;
  [ simpl; rewrite <- ?app_assoc; reflexivity | by simpl ].

Lemma pick_action_env_run (state : State) (a : Agent) :
  ∃ evs,
    trace (snd (_pick_action config state a)) = trace a ++ evs ∧
    env_run (env a) evs (env (snd (_pick_action config state a))).
Proof.
  rewrite pick_action_run. destruct (Qltb _ _); ran.
Qed.

Lemma train_minibatch_env_run (n : nat) (a : Agent) :
  ∃ evs,
    trace (snd (_train_minibatch config n a)) = trace a ++ evs ∧
    env_run (env a) evs (env (snd (_train_minibatch config n a))).
Proof.
  unfold _train_minibatch, bind, call_replay_size.
  destruct (rm_size (replay_memory a) <? n); [ran|].
  unfold call_replay_get_minibatch. simpl.
  destruct (rm_get_minibatch (replay_memory a) n) as [[nt t] rm'].
  unfold _predict_q_values, bind, gets. simpl.
  destruct (target_params a) as [tp|]; [|ran].
  unfold run_q_output, lift. simpl.
  destruct (max_axis1 _) as [max_q|]; [|ran].
  destruct (_get_minibatch_feed_dict _ _ _ _); ran.
Qed.

(** Through the loop of [train_episode], however it ends, the calls on
    the environment in the trace are a run of the environment. *)
Lemma episode_loop_env_run (fuel : nat) (state : State) (total : Q)
  (steps : nat) (a : Agent) :
  ∃ evs,
    trace (snd (episode_loop config fuel state total steps a)) =
      trace a ++ evs ∧
    env_run (env a) evs
      (env (snd (episode_loop config fuel state total steps a))).
Proof.
  revert state total steps a.
  induction fuel as [|fuel IH]; intros state total steps a.
  { exists []. simpl. by rewrite app_nil_r. }
  rewrite episode_loop_unfold.
  destruct (pick_action_env_run state a) as (evs1 & H1 & Hr1).
  destruct (_pick_action config state a) as [[action|e] a1];
    simpl in H1, Hr1; [|eauto].
  cbv zeta.
  match goal with
  | |- context [_train_minibatch _ _ ?x] => set (a2 := x)
  end.
  assert (∃ evs, trace a2 = trace a ++ evs ∧ env_run (env a) evs (env a2))
    as (evs12 & H12 & Hr12).
  { eexists. split.
    - subst a2. simpl. rewrite H1, <- !app_assoc. reflexivity.
    - eapply env_run_app; [exact Hr1|].
      subst a2. simpl. by destruct (env_step (env a1) action) as [[[o r] d] e']. }
  destruct (train_minibatch_env_run (minibatch_size config) a2)
    as (evs2 & H2 & Hr2).
  rewrite H12 in H2.
  pose proof (env_run_app _ _ _ _ _ Hr12 Hr2) as Hr.
  destruct (_train_minibatch _ _ a2) as [[[]|e] a3]; simpl in H2, Hr.
  2: { eexists. split; [simpl; rewrite H2, <- app_assoc; reflexivity|exact Hr]. }
  destruct (env_step (env a1) action).1.2.
  - eexists. split; [simpl; rewrite H2, <- app_assoc; reflexivity|exact Hr].
  - match goal with
    | |- context [episode_loop _ _ ?s ?q ?k ?x] =>
        destruct (IH s q k x) as (evs3 & H3 & Hr3)
    end.
    eexists. split.
    + rewrite H3. simpl. rewrite H2, <- !app_assoc. reflexivity.
    + rewrite app_assoc. eapply env_run_app; [exact Hr|exact Hr3].
Qed.

Lemma train_episode_env_run (max_steps : nat) (a : Agent) :
  ∃ evs,
    trace (snd (train_episode config max_steps a)) = trace a ++ evs ∧
    env_run (env a) evs (env (snd (train_episode config max_steps a))).
Proof.
  rewrite train_episode_unfold. cbv zeta.
  match goal with
  | |- context [episode_loop _ _ ?s ?q ?k ?x] =>
      destruct (episode_loop_env_run max_steps s q k x) as (evs & H & Hr)
  end.
  match type of H with
  | _ = trace (log ?e3 (log ?e2 (_ (log ?e1 _)))) ++ _ =>
      exists ([e1; e2; e3] ++ evs)
  end.
  split; [rewrite H; simpl; by rewrite <- !app_assoc|].
  simpl in *. split; [by destruct (env_reset (env a))|exact Hr].
Qed.

(** C10, amended. Under a network that keeps its contract,
    [train_episode] drives the environment, from the state it finds it
    in, until a step reports [done] or [max_steps] steps are made, and
    returns the rewards those steps returned, added up in order before
    any override, with their number as the episode's length; [train]
    logs that same reward and length. The transitions it hands to the
    replay memory carry the overridden rewards, step by step: the
    registered penalty on a step that reports [done], the reward of the
    environment otherwise. So on a penalised last step the returned
    total counts the reward of the environment where the stored
    transition holds the penalty. *)
Theorem episode_reward_is_raw_sum (remaining episode max_steps : nat)
  (supervisor : option (nat → bool)) (a : Agent) :
  batch_shaped → 0 < action_space_n → is_Some (target_params a) →
  ∃ (evs : list Event) (total : Q) (steps : nat),
    fst (train_episode config max_steps a) = Ok (total, steps) ∧
    trace (snd (train_episode config max_steps a)) = trace a ++ evs ∧
    env_run (env a) evs (env (snd (train_episode config max_steps a))) ∧
    steps = length (env_steps evs) ∧
    steps ≤ max_steps ∧
    (∀ (i : nat) (s : Q * bool),
       env_steps evs !! i = Some s → S i < steps → s.2 = false) ∧
    (steps < max_steps → ∃ r, last (env_steps evs) = Some (r, true)) ∧
    total = sum_rewards ((env_steps evs).*1) ∧
    stored_rewards evs =
      map (λ step : Q * bool,
             if step.2 then default step.1 (FAILURE_PENALTY !! env_spec_id)
             else step.1)
          (env_steps evs) ∧
    (∀ (i : nat) (r penalty : Q),
       env_steps evs !! i = Some (r, true) →
       FAILURE_PENALTY !! env_spec_id = Some penalty →
       (env_steps evs).*1 !! i = Some r ∧
       stored_rewards evs !! i = Some penalty) ∧
    ∃ rest,
      trace (snd (train_loop config (S remaining) episode max_steps
                    supervisor a)) =
        trace a ++ evs ++ LogEpisode total steps :: rest.
Proof.
  intros Hshape Hn Htp.
  destruct (train_logs_episode_reward config remaining episode max_steps
              supervisor a Hshape Hn Htp)
    as (evs & total & steps & Hfst & H & Htotal & Hsteps & Hstored & Hlog).
  destruct (train_episode_counts config max_steps a Hshape Hn Htp)
    as (evs' & total' & steps' & Hfst' & H' & Hsteps' & Hle & _ & _ &
        Hdone & Hlast).
  destruct (train_episode_env_run max_steps a) as (evs'' & H'' & Hrun).
  assert (evs' = evs) as ->.
  { rewrite H in H'. by apply app_inv_head in H'. }
  assert (evs'' = evs) as ->.
  { rewrite H in H''. by apply app_inv_head in H''. }
  assert (steps' = steps) as -> by congruence.
  exists evs, total, steps. repeat (split; [done|]).
  split; [|exact Hlog].
  intros i r penalty Hi Hpenalty. split.
  - by rewrite list_lookup_fmap, Hi.
  - rewrite Hstored, lookup_map, Hi. simpl. by rewrite Hpenalty.
Qed.

End EpisodeReward.

Section Harsh.
#[local] Existing Instance harsh_env.
#[local] Existing Instance harsh_frames.
#[local] Existing Instance harsh_network.
#[local] Existing Instance alternating_random.
#[local] Existing Instance harsh_replay.
#[local] Existing Instance harsh_utils.

(** C10, as the spec has it, fails where the environment's own reward
    on the penalised step is the penalty: an episode of one step of
    reward [-100] under the id of CartPole reports [-100] and stores
    [-100]. *)
Lemma reported_equals_stored_at_penalty :
  ¬ reported_differs_from_stored (small_config 2) 1 harsh_agent.
Proof.
  intros Hdiffer.
  apply (Hdiffer (-100)%Q 1 (-100)%Q (-100)%Q (-100)%Q);
    reflexivity.
Qed.

End Harsh.

Section CartPoleReward.
#[local] Existing Instance cartpole.
#[local] Existing Instance cartpole_frames.
#[local] Existing Instance cartpole_network.
#[local] Existing Instance alternating_random.
#[local] Existing Instance cartpole_replay.
#[local] Existing Instance cartpole_utils.

Lemma episode_reward_is_raw_sum_witness :
  ∃ (evs : list Event) (total : Q) (steps : nat),
    fst (train_episode (small_config 2) 3 cartpole_agent) = Ok (total, steps) ∧
    trace (snd (train_episode (small_config 2) 3 cartpole_agent)) =
      trace cartpole_agent ++ evs ∧
    env_run (env cartpole_agent) evs
      (env (snd (train_episode (small_config 2) 3 cartpole_agent))) ∧
    steps = length (env_steps evs) ∧
    steps ≤ 3 ∧
    (∀ (i : nat) (s : Q * bool),
       env_steps evs !! i = Some s → S i < steps → s.2 = false) ∧
    (steps < 3 → ∃ r, last (env_steps evs) = Some (r, true)) ∧
    total = sum_rewards ((env_steps evs).*1) ∧
    stored_rewards evs =
      map (λ step : Q * bool,
             if step.2 then default step.1 (FAILURE_PENALTY !! env_spec_id)
             else step.1)
          (env_steps evs) ∧
    (∀ (i : nat) (r penalty : Q),
       env_steps evs !! i = Some (r, true) →
       FAILURE_PENALTY !! env_spec_id = Some penalty →
       (env_steps evs).*1 !! i = Some r ∧
       stored_rewards evs !! i = Some penalty) ∧
    ∃ rest,
      trace (snd (train_loop (small_config 2) 1 0 3 None cartpole_agent)) =
        trace cartpole_agent ++ evs ++ LogEpisode total steps :: rest.
Proof.
  apply (episode_reward_is_raw_sum (small_config 2) 0 0 3 None cartpole_agent).
  - exact counting_network_shaped.
  - simpl. lia.
  - by exists 0.
Defined.

End CartPoleReward.

